(** * Bubble physics lab: the three widget models of [MechanicsLab.tsx]

    A shallow embedding of the numeric core of
    [src/components/MechanicsLab.tsx]:

    - [MechanicsExperiment]: the [step] closure that moves air between two
      connected bubbles (Young-Laplace), the volume synchronisation effect
      and the pressures shown next to the bubbles;
    - [GeometryExperiment]: the two path lengths and the pixel coordinates
      of the Steiner junctions;
    - [interferenceColor]: the thickness to colour lookup;
    - the rest of the mechanics component (click and slider handlers, the
      two effects, [Bubble3D], [AirFlowParticles]), the labels of the
      optics view, and the wobble of [SoapBubble] in the hero scene.

    JavaScript numbers are modelled as real numbers with exact arithmetic:
    [Math.PI] is [PI], [Math.sqrt] is [sqrt], [Math.tan] is [tan],
    [Math.max] is [Rmax], [Math.abs] is [Rabs], [Math.pow (x, 3)] is
    [x ^ 3] and [Math.pow (x, 1/3)] is [Rpower x (1/3)] (its argument is
    always positive in the source).  Rounding of IEEE doubles and NaN are
    outside this model. *)

From Stdlib Require Import Reals Lra Bool String List Arith Lia NArith DecimalString.

Local Open Scope list_scope.
Local Open Scope R_scope.

(** ** Comparisons of the source as booleans *)

Definition Rltb (x y : R) : bool := if Rlt_dec x y then true else false.

(** ** Experiment 1: mechanics (Young-Laplace) *)

Module Mechanics.

Definition SURFACE_TENSION : R := 50.
Definition FLOW_RATE_CONSTANT : R := 5 / 10000.

(** [stateRef.current]: the stored volumes. *)
Record Volumes : Type := mkVolumes { v1 : R; v2 : R }.

(** The state of [MechanicsExperiment]: the four [useState] cells and the
    [useRef] cell. *)
Record State : Type := mkState {
  r1 : R;
  r2 : R;
  valveOpen : bool;
  animating : bool;
  stateRef : Volumes
}.

(** [(4/3) * Math.PI * Math.pow(r, 3)] *)
Definition volumeOfRadius (r : R) : R := (4 / 3) * PI * r ^ 3.

(** [Math.pow((3 * v) / (4 * Math.PI), 1/3)] *)
Definition radiusOfVolume (v : R) : R := Rpower ((3 * v) / (4 * PI)) (1 / 3).

(** The first effect: while not animating, the stored volumes follow the
    radii. *)
Definition syncVolumes (s : State) : State :=
  if animating s then s
  else mkState (r1 s) (r2 s) (valveOpen s) (animating s)
         (mkVolumes (volumeOfRadius (r1 s)) (volumeOfRadius (r2 s))).

(** The locals of [step], as functions of the state it reads. *)
Definition safeV1 (s : State) : R := Rmax (1 / 10000) (v1 (stateRef s)).
Definition safeV2 (s : State) : R := Rmax (1 / 10000) (v2 (stateRef s)).
Definition curR1 (s : State) : R := radiusOfVolume (safeV1 s).
Definition curR2 (s : State) : R := radiusOfVolume (safeV2 s).

(** [curR1 < 0.2 || curR2 < 0.2] *)
Definition collapsed (s : State) : bool :=
  Rltb (curR1 s) (2 / 10) || Rltb (curR2 s) (2 / 10).

Definition p1 (s : State) : R := (2 * SURFACE_TENSION) / curR1 s.
Definition p2 (s : State) : R := (2 * SURFACE_TENSION) / curR2 s.
Definition flow (s : State) : R := (p1 s - p2 s) * FLOW_RATE_CONSTANT.

(** One call of the [step] closure.  [valveOpen s] is the value the closure
    captured; the three branches are the early return on collapse, the
    regular tick and the closed valve. *)
Definition step (s : State) : State :=
  if valveOpen s then
    if collapsed s then
      mkState (r1 s) (r2 s) false false (stateRef s)
    else
      let newV1 := v1 (stateRef s) - flow s in
      let newV2 := v2 (stateRef s) + flow s in
      mkState (radiusOfVolume (Rmax (1 / 10000) newV1))
              (radiusOfVolume (Rmax (1 / 10000) newV2))
              true true (mkVolumes newV1 newV2)
  else
    mkState (r1 s) (r2 s) (valveOpen s) false (stateRef s).

(** [n] consecutive calls of [step]. *)
Fixpoint steps (n : nat) (s : State) : State :=
  match n with
  | O => s
  | S k => step (steps k s)
  end.

(** The pressures computed in the component body for the labels. *)
Definition displayPressure (r : R) : R :=
  (2 * SURFACE_TENSION) / Rmax (1 / 10) r.

(** The pressure expression of [step], as a function of the radius. *)
Definition pressure (r : R) : R := (2 * SURFACE_TENSION) / r.

Inductive Direction : Type := DirNone | DirRight | DirLeft.

(** [flowDir] *)
Definition flowDir (s : State) : Direction :=
  if Rltb (Rabs (r1 s - r2 s)) (1 / 100) then DirNone
  else if Rltb (r1 s) (r2 s) then DirRight else DirLeft.

(** Total stored volume. *)
Definition totalVolume (s : State) : R := v1 (stateRef s) + v2 (stateRef s).

(** The state right after the sliders were set to [ra], [rb] and the valve
    button was pressed. *)
Definition opened (ra rb : R) : State :=
  mkState ra rb true false (mkVolumes (volumeOfRadius ra) (volumeOfRadius rb)).

(** The stored volume at which the recovered radius is exactly [0.2]. *)
Definition floorVolume : R := volumeOfRadius (2 / 10).

(** The radii on display are the ones recovered from the stored volumes. *)
Definition inSync (s : State) : Prop := r1 s = curR1 s /\ r2 s = curR2 s.

(** The volume that left bubble A during one call of [step]. *)
Definition transferred (s : State) : R :=
  v1 (stateRef s) - v1 (stateRef (step s)).

(** The state after the first tick from the slider ends [0.3] and [2.0]. *)
Definition overshoot : State := step (opened (3 / 10) 2).

(** What can run on the component once it is mounted: a call of [step] or
    the volume synchronisation effect. *)
Inductive Call : Type := CallStep | CallSync.

Definition call (c : Call) (s : State) : State :=
  match c with
  | CallStep => step s
  | CallSync => syncVolumes s
  end.

Fixpoint run (l : list Call) (s : State) : State :=
  match l with
  | nil => s
  | c :: rest => run rest (call c s)
  end.

End Mechanics.

(** ** Experiment 2: geometry (Plateau's problem) *)

Module Geometry.

Record Point : Type := mkPoint { x : R; y : R }.

Definition size : R := 200.

(** The four corners [p.tl], [p.tr], [p.bl], [p.br]. *)
Definition tl : Point := mkPoint 50 50.
Definition tr : Point := mkPoint 250 50.
Definition bl : Point := mkPoint 50 250.
Definition br : Point := mkPoint 250 250.

Definition sideLength : R := 1.
Definition lenDirect : R := 2 * sqrt 2 * sideLength.
Definition lenSoap : R := sideLength * (1 + sqrt 3).

(** The first, unused attempt at a junction. *)
Definition h : R := 100 * tan (PI / 6).
Definition s1 : Point := mkPoint 100 (50 + h).

(** The junctions that are drawn. *)
Definition offset : R := 100 / sqrt 3.
Definition sp1 : Point := mkPoint 150 (50 + offset).
Definition sp2 : Point := mkPoint 150 (250 - offset).

Inductive Mode : Type := direct | soap.

(** The [<line>] elements drawn in each mode, as pairs of end points. *)
Definition lines (mode : Mode) : list (Point * Point) :=
  match mode with
  | direct => (tl, br) :: (tr, bl) :: nil
  | soap => (tl, sp1) :: (tr, sp1) :: (sp1, sp2) :: (bl, sp2) :: (br, sp2) :: nil
  end.

(** The number shown under "Total Path Length", before [toFixed]. *)
Definition shownLength (mode : Mode) : R :=
  match mode with
  | direct => lenDirect
  | soap => lenSoap
  end.

(** Plane geometry used to state the angle condition. *)
Definition vec (a b : Point) : Point := mkPoint (x b - x a) (y b - y a).
Definition dot (u v : Point) : R := x u * x v + y u * y v.
Definition norm (u : Point) : R := sqrt (dot u u).
Definition dist (a b : Point) : R := norm (vec a b).

(** The angle at [a] between the segments [a b] and [a c], in radians. *)
Definition angleAt (a b c : Point) : R :=
  acos (dot (vec a b) (vec a c) / (norm (vec a b) * norm (vec a c))).

(** Three segments from [j] to [a], [b] and [c] meet at 120 degrees. *)
Definition meetsAt120 (j a b c : Point) : Prop :=
  angleAt j a b = 2 * (PI / 3) /\
  angleAt j b c = 2 * (PI / 3) /\
  angleAt j c a = 2 * (PI / 3).

(** Sum of the lengths of a list of segments. *)
Fixpoint totalLength (l : list (Point * Point)) : R :=
  match l with
  | nil => 0
  | (a, b) :: rest => dist a b + totalLength rest
  end.

End Geometry.

(** ** Experiment 3: optics (interference) *)

Module Optics.

Local Open Scope string_scope.

Definition interferenceColor (thickness : R) : string :=
  let t := Rmax 0 thickness in
  if Rltb t 30 then "rgb(20, 20, 20)"
  else if Rltb t 120 then "rgb(240, 240, 250)"
  else if Rltb t 250 then "rgb(255, 220, 100)"
  else if Rltb t 350 then "rgb(200, 50, 255)"
  else if Rltb t 450 then "rgb(50, 100, 255)"
  else if Rltb t 550 then "rgb(50, 255, 150)"
  else if Rltb t 650 then "rgb(255, 255, 50)"
  else if Rltb t 800 then "rgb(255, 100, 100)"
  else "rgb(100, 200, 200)".

(** The ordered bands as the specification lists them. *)
Inductive Band : Type :=
  | Black | SilveryWhite | Gold | Purple | Blue | Green | Yellow | RedPink
  | HighOrder.

(** Lower end of a band (included). *)
Definition bandLo (b : Band) : R :=
  match b with
  | Black => 0 | SilveryWhite => 30 | Gold => 120 | Purple => 250
  | Blue => 350 | Green => 450 | Yellow => 550 | RedPink => 650
  | HighOrder => 800
  end.

(** Upper end of a band (excluded); the last band has none. *)
Definition bandHi (b : Band) : option R :=
  match b with
  | Black => Some 30 | SilveryWhite => Some 120 | Gold => Some 250
  | Purple => Some 350 | Blue => Some 450 | Green => Some 550
  | Yellow => Some 650 | RedPink => Some 800 | HighOrder => None
  end.

Definition inBand (b : Band) (t : R) : Prop :=
  bandLo b <= t /\ match bandHi b with Some hi => t < hi | None => True end.

(** The colour the source returns on the branch it labels with the band. *)
Definition bandColor (b : Band) : string :=
  match b with
  | Black => "rgb(20, 20, 20)"
  | SilveryWhite => "rgb(240, 240, 250)"
  | Gold => "rgb(255, 220, 100)"
  | Purple => "rgb(200, 50, 255)"
  | Blue => "rgb(50, 100, 255)"
  | Green => "rgb(50, 255, 150)"
  | Yellow => "rgb(255, 255, 50)"
  | RedPink => "rgb(255, 100, 100)"
  | HighOrder => "rgb(100, 200, 200)"
  end.

(** The colours as byte triples and their CSS rendering. *)
Record RGB : Type := mkRGB { red : N; green : N; blue : N }.

Definition dec (n : N) : string := NilEmpty.string_of_uint (N.to_uint n).

Definition css (c : RGB) : string :=
  "rgb(" ++ dec (red c) ++ ", " ++ dec (green c) ++ ", " ++ dec (blue c) ++ ")".

Definition bandRGB (b : Band) : RGB :=
  match b with
  | Black => mkRGB 20 20 20
  | SilveryWhite => mkRGB 240 240 250
  | Gold => mkRGB 255 220 100
  | Purple => mkRGB 200 50 255
  | Blue => mkRGB 50 100 255
  | Green => mkRGB 50 255 150
  | Yellow => mkRGB 255 255 50
  | RedPink => mkRGB 255 100 100
  | HighOrder => mkRGB 100 200 200
  end.

Definition allBands : list Band :=
  Black :: SilveryWhite :: Gold :: Purple :: Blue :: Green :: Yellow
  :: RedPink :: HighOrder :: nil.

End Optics.

(** ** The component around [step]: events, effects and the 3D scene *)

Module Lab.

Import Mechanics.

Definition Reqb (x y : R) : bool := if Req_dec_T x y then true else false.

(** The component between two events: its state cells and whether a frame
    callback is scheduled ([rafId] is live). *)
Record Component : Type := mkComponent { st : State; pending : bool }.

(** What can happen to the mounted component: a click on the valve button,
    a change of one of the sliders, a click on Reset, or the animation
    frame firing. *)
Inductive Event : Type :=
  | ClickValve
  | SlideR1 (x : R)
  | SlideR2 (x : R)
  | ClickReset
  | Frame.

(** The handlers, one event at a time.  The sliders are [disabled] while
    the valve is open.  The frame callback runs [step] when one is
    scheduled; only the regular branch of [step] schedules the next one.
    The closure that runs was created by the second effect when the valve
    last changed, so the [valveOpen] it captured is the current one. *)
Definition handle (e : Event) (c : Component) : Component :=
  let s := st c in
  match e with
  | ClickValve =>
      mkComponent
        (mkState (r1 s) (r2 s) (negb (valveOpen s)) (animating s) (stateRef s))
        (pending c)
  | SlideR1 x =>
      if valveOpen s then c
      else mkComponent (mkState x (r2 s) false (animating s) (stateRef s))
             (pending c)
  | SlideR2 x =>
      if valveOpen s then c
      else mkComponent (mkState (r1 s) x false (animating s) (stateRef s))
             (pending c)
  | ClickReset =>
      mkComponent
        (mkState (12 / 10) (8 / 10) false (animating s) (stateRef s))
        (pending c)
  | Frame =>
      if pending c
      then mkComponent (step s) (valveOpen s && negb (collapsed s))
      else c
  end.

(** The dependency list [r1, r2, animating] of the first effect. *)
Definition depsChanged (old new : State) : bool :=
  negb (Reqb (r1 old) (r1 new) && Reqb (r2 old) (r2 new)
        && Bool.eqb (animating old) (animating new)).

(** The effects that run after a render: the first when one of
    [r1, r2, animating] changed, the second when [valveOpen] changed; the
    second cancels the scheduled frame and schedules one if the valve is
    open. *)
Definition effects (old new : Component) : Component :=
  mkComponent
    (if depsChanged (st old) (st new) then syncVolumes (st new) else st new)
    (if Bool.eqb (valveOpen (st old)) (valveOpen (st new))
     then pending new else valveOpen (st new)).

Definition dispatch (e : Event) (c : Component) : Component :=
  effects c (handle e c).

Fixpoint runEvents (l : list Event) (c : Component) : Component :=
  match l with
  | nil => c
  | e :: rest => runEvents rest (dispatch e c)
  end.

(** The component after mounting: both effects have run once. *)
Definition mounted : Component :=
  mkComponent
    (syncVolumes (mkState (12 / 10) (8 / 10) false false (mkVolumes 0 0)))
    false.

(** The stored volumes are the volumes of the radii on display. *)
Definition volumesSynced (s : State) : Prop :=
  stateRef s = mkVolumes (volumeOfRadius (r1 s)) (volumeOfRadius (r2 s)).

(** What holds of the component between events: a frame is scheduled
    exactly while the valve is open, and while [animating] is off the
    stored volumes follow the radii. *)
Definition consistent (c : Component) : Prop :=
  pending c = valveOpen (st c) /\
  (animating (st c) = false -> volumesSynced (st c)).

(** A run that is interrupted by hand: open the valve, let one frame pass,
    close the valve with the button, move slider A to [0.5] and slider B to
    [1.0], open the valve again. *)
Definition staleEvents : list Event :=
  ClickValve :: Frame :: ClickValve :: SlideR1 (5 / 10) :: SlideR2 1
  :: ClickValve :: nil.

Definition stale : Component := runEvents staleEvents mounted.

(** The events that do not run [step]. *)
Definition isInput (e : Event) : bool :=
  match e with
  | Frame => false
  | _ => true
  end.

(** The same state with the two bubbles exchanged. *)
Definition swap (s : State) : State :=
  mkState (r2 s) (r1 s) (valveOpen s) (animating s)
    (mkVolumes (v2 (stateRef s)) (v1 (stateRef s))).

(** [Bubble3D]: the colour of the sphere. *)
Definition bubbleColor (radius : R) : string :=
  if Rltb radius (2 / 10) then "#ffaaaa"%string else "#ffffff"%string.

(** [AirFlowParticles]: the x coordinate of particle [i] at the start, one
    frame of its motion, and its scale at a given clock time. *)
Definition particleStart (i : nat) : R := (INR i - 5) * (4 / 10).

Definition particleFrame (isOpen : bool) (direction : Direction) (px : R) : R :=
  match isOpen, direction with
  | false, _ => px
  | true, DirNone => px
  | true, _ =>
      let speed := match direction with DirRight => 2 | _ => -2 end in
      let x1 := px + speed * (2 / 100) in
      let x2 := if Rltb 2 x1 then -2 else x1 in
      if Rltb x2 (-2) then 2 else x2
  end.

Definition particleScale (elapsedTime : R) (i : nat) : R :=
  sin (elapsedTime * 5 + INR i) * (5 / 100) + 5 / 100.

End Lab.

(** ** The view of the optics experiment *)

Module OpticsView.

(** The "Black Film (Fragile!)" label is rendered. *)
Definition showsFragile (thickness : R) : bool := Rltb thickness 30.

(** The three explanatory texts under the slider. *)
Inductive Note : Type := NoteBlack | NoteSilverGold | NoteCycle.

Definition note (thickness : R) : Note :=
  if Rltb thickness 30 then NoteBlack
  else if Rltb thickness 150 then NoteSilverGold
  else NoteCycle.

(** The values the slider can take: [0, 10, ..., 1000]. *)
Definition sliderValue (k : nat) : R := INR (10 * k).

(** Position of a band in the order of the lookup. *)
Definition bandIndex (b : Optics.Band) : nat :=
  match b with
  | Optics.Black => 0 | Optics.SilveryWhite => 1 | Optics.Gold => 2
  | Optics.Purple => 3 | Optics.Blue => 4 | Optics.Green => 5
  | Optics.Yellow => 6 | Optics.RedPink => 7 | Optics.HighOrder => 8
  end.

End OpticsView.

(** ** The hero scene: [SoapBubble] *)

Module Hero.

(** The scale set on the mesh in [useFrame], for the nominal [scale], the
    [speed], the random [offset] and the clock time. *)
Definition wobble (scale speed offset elapsed : R) : R :=
  let t := elapsed * speed in
  scale + sin (t * 2 + offset) * (2 / 100) * scale.

End Hero.

(** * Properties *)

(** ** Boolean comparisons *)

Lemma Rltb_true (x y : R) : Rltb x y = true <-> x < y.
Proof. unfold Rltb; destruct (Rlt_dec x y); split; intros; try easy. Qed.

Lemma Rltb_false (x y : R) : Rltb x y = false <-> y <= x.
Proof.
  unfold Rltb; destruct (Rlt_dec x y); split; intros; try easy; lra.
Qed.

(** ** Mechanics: radius and volume *)

Import Mechanics.

Lemma PI_gt_3 : 3 < PI.
Proof. pose proof PI2_3_2; lra. Qed.

Lemma radiusOfVolume_pos (v : R) : 0 < radiusOfVolume v.
Proof. unfold radiusOfVolume, Rpower; apply exp_pos. Qed.

Lemma radiusOfVolume_cube (v : R) :
  0 < v -> radiusOfVolume v ^ 3 = (3 * v) / (4 * PI).
Proof.
  intros Hv. pose proof PI_gt_3 as Hpi.
  assert (Hq : 0 < (3 * v) / (4 * PI)).
  { apply Rdiv_lt_0_compat; lra. }
  unfold radiusOfVolume.
  rewrite <- Rpower_pow by (unfold Rpower; apply exp_pos).
  rewrite Rpower_mult.
  replace (1 / 3 * INR 3) with 1 by (simpl; field).
  now apply Rpower_1.
Qed.

Lemma radiusOfVolume_lt (a b : R) :
  0 < a -> a < b -> radiusOfVolume a < radiusOfVolume b.
Proof.
  intros Ha Hab. pose proof PI_gt_3 as Hpi.
  unfold radiusOfVolume. apply Rlt_Rpower_l; [lra|].
  assert (Hd : 0 < / (4 * PI)) by (apply Rinv_0_lt_compat; lra).
  unfold Rdiv; split; nra.
Qed.

Lemma radiusOfVolume_le (a b : R) :
  0 < a -> a <= b -> radiusOfVolume a <= radiusOfVolume b.
Proof.
  intros Ha [Hab | ->]; [left; now apply radiusOfVolume_lt | right; reflexivity].
Qed.

Lemma radiusOfVolume_lt_inv (a b : R) :
  0 < a -> 0 < b -> radiusOfVolume a < radiusOfVolume b -> a < b.
Proof.
  intros Ha Hb Hlt. destruct (Rlt_le_dec a b) as [|Hba]; [assumption|].
  pose proof (radiusOfVolume_le b a Hb Hba). lra.
Qed.

Lemma radiusOfVolume_inj (a b : R) :
  0 < a -> 0 < b -> radiusOfVolume a = radiusOfVolume b -> a = b.
Proof.
  intros Ha Hb Heq. destruct (Rtotal_order a b) as [Hlt | [-> | Hgt]].
  - pose proof (radiusOfVolume_lt a b Ha Hlt); lra.
  - reflexivity.
  - pose proof (radiusOfVolume_lt b a Hb Hgt); lra.
Qed.

Lemma volumeOfRadius_pos (r : R) : 0 < r -> 0 < volumeOfRadius r.
Proof.
  intros Hr. pose proof PI_gt_3 as Hpi. unfold volumeOfRadius.
  assert (0 < r ^ 3) by (apply pow_lt; assumption). nra.
Qed.

(** Recovering the radius undoes [volumeOfRadius]. *)
Lemma radiusOfVolume_volumeOfRadius (r : R) :
  0 < r -> radiusOfVolume (volumeOfRadius r) = r.
Proof.
  intros Hr. pose proof PI_gt_3 as Hpi.
  unfold radiusOfVolume, volumeOfRadius.
  replace (3 * (4 / 3 * PI * r ^ 3) / (4 * PI)) with (r ^ 3) by (field; lra).
  rewrite <- Rpower_pow by assumption.
  rewrite Rpower_mult.
  replace (INR 3 * (1 / 3)) with 1 by (simpl; field).
  now apply Rpower_1.
Qed.

Lemma safe_pos (v : R) : 0 < Rmax (1 / 10000) v.
Proof. pose proof (Rmax_l (1 / 10000) v); lra. Qed.

Lemma safe_mono (a b : R) : a <= b -> Rmax (1 / 10000) a <= Rmax (1 / 10000) b.
Proof. intros H. apply Rle_max_compat_l; assumption. Qed.

Lemma floorVolume_bounds : 32 / 1000 < floorVolume < 43 / 1000.
Proof.
  pose proof PI_gt_3. pose proof PI_4.
  unfold floorVolume, volumeOfRadius. lra.
Qed.

Lemma safe_radius_floor (v : R) :
  Rltb (radiusOfVolume (Rmax (1 / 10000) v)) (2 / 10) = false <->
  floorVolume <= v.
Proof.
  pose proof floorVolume_bounds as Hf. pose proof (safe_pos v) as Hs.
  assert (Hfl : radiusOfVolume floorVolume = 2 / 10).
  { apply radiusOfVolume_volumeOfRadius; lra. }
  rewrite Rltb_false. split; intros H.
  - destruct (Rlt_le_dec v floorVolume) as [Hlt|]; [exfalso | assumption].
    assert (Rmax (1 / 10000) v < floorVolume).
    { apply Rmax_lub_lt; lra. }
    pose proof (radiusOfVolume_lt _ _ Hs H0). lra.
  - rewrite <- Hfl. apply radiusOfVolume_le; [lra|].
    pose proof (Rmax_r (1 / 10000) v). lra.
Qed.

(** The collapse test in terms of the stored volumes. *)
Lemma collapsed_false_iff (s : State) :
  collapsed s = false <->
  floorVolume <= v1 (stateRef s) /\ floorVolume <= v2 (stateRef s).
Proof.
  unfold collapsed, curR1, curR2, safeV1, safeV2.
  rewrite orb_false_iff, !safe_radius_floor. reflexivity.
Qed.

Lemma safe_id (v : R) : floorVolume <= v -> Rmax (1 / 10000) v = v.
Proof.
  intros H. pose proof floorVolume_bounds. apply Rmax_right; lra.
Qed.

(** ** Mechanics: the three branches of [step] *)

Lemma step_regular (s : State) :
  valveOpen s = true -> collapsed s = false ->
  step s =
  mkState (radiusOfVolume (Rmax (1 / 10000) (v1 (stateRef s) - flow s)))
          (radiusOfVolume (Rmax (1 / 10000) (v2 (stateRef s) + flow s)))
          true true
          (mkVolumes (v1 (stateRef s) - flow s) (v2 (stateRef s) + flow s)).
Proof. intros Hv Hc. unfold step. rewrite Hv, Hc. reflexivity. Qed.

Lemma step_collapse (s : State) :
  valveOpen s = true -> collapsed s = true ->
  step s = mkState (r1 s) (r2 s) false false (stateRef s).
Proof. intros Hv Hc. unfold step. rewrite Hv, Hc. reflexivity. Qed.

Lemma step_closed (s : State) :
  valveOpen s = false ->
  step s = mkState (r1 s) (r2 s) false false (stateRef s).
Proof. intros Hv. unfold step. rewrite Hv. reflexivity. Qed.

(** While no collapse is detected the valve stays open. *)
Lemma steps_valve_open (n : nat) (s : State) :
  valveOpen s = true ->
  (forall k, (k < n)%nat -> collapsed (steps k s) = false) ->
  valveOpen (steps n s) = true.
Proof.
  intros Hv. induction n as [|n IH]; intros Hc; [exact Hv|].
  simpl. rewrite step_regular; [reflexivity | apply IH | apply Hc; lia].
  intros k Hk; apply Hc; lia.
Qed.

(** C1: on a regular tick [flow] leaves bubble A and enters bubble B, so the
    total stored volume is unchanged; over [n] regular ticks the total is the
    initial total. *)
Theorem volume_conservation (s : State) (n : nat) :
  valveOpen s = true ->
  (forall k, (k < n)%nat -> collapsed (steps k s) = false) ->
  (forall k, (k < n)%nat ->
     v1 (stateRef (steps (S k) s)) = v1 (stateRef (steps k s)) - flow (steps k s) /\
     v2 (stateRef (steps (S k) s)) = v2 (stateRef (steps k s)) + flow (steps k s) /\
     totalVolume (steps (S k) s) = totalVolume (steps k s)) /\
  totalVolume (steps n s) = totalVolume s.
Proof.
  intros Hv Hc.
  assert (Hstep : forall k, (k < n)%nat ->
     v1 (stateRef (steps (S k) s)) = v1 (stateRef (steps k s)) - flow (steps k s) /\
     v2 (stateRef (steps (S k) s)) = v2 (stateRef (steps k s)) + flow (steps k s) /\
     totalVolume (steps (S k) s) = totalVolume (steps k s)).
  { intros k Hk. simpl steps.
    rewrite step_regular.
    - unfold totalVolume; simpl. repeat split; lra.
    - apply steps_valve_open; [assumption|]. intros j Hj; apply Hc; lia.
    - apply Hc; assumption. }
  split; [exact Hstep|].
  clear Hv Hc. induction n as [|n IH]; [reflexivity|].
  destruct (Hstep n) as (_ & _ & ->); [lia|].
  apply IH. intros k Hk; apply Hstep; lia.
Qed.

(** ** Mechanics: the state right after the valve is opened *)

Lemma volumeOfRadius_le (a b : R) :
  0 <= a -> a <= b -> volumeOfRadius a <= volumeOfRadius b.
Proof.
  intros Ha Hab. pose proof PI_gt_3 as Hpi. unfold volumeOfRadius.
  assert (a ^ 3 <= b ^ 3) by (apply pow_incr; lra). nra.
Qed.

Lemma opened_curR1 (ra rb : R) : 2 / 10 <= ra -> curR1 (opened ra rb) = ra.
Proof.
  intros Hr. unfold curR1, safeV1, opened; simpl.
  rewrite safe_id by (apply volumeOfRadius_le; lra).
  apply radiusOfVolume_volumeOfRadius; lra.
Qed.

Lemma opened_curR2 (ra rb : R) : 2 / 10 <= rb -> curR2 (opened ra rb) = rb.
Proof.
  intros Hr. unfold curR2, safeV2, opened; simpl.
  rewrite safe_id by (apply volumeOfRadius_le; lra).
  apply radiusOfVolume_volumeOfRadius; lra.
Qed.

Lemma opened_not_collapsed (ra rb : R) :
  2 / 10 <= ra -> 2 / 10 <= rb -> collapsed (opened ra rb) = false.
Proof.
  intros Ha Hb. apply collapsed_false_iff; simpl.
  split; apply volumeOfRadius_le; lra.
Qed.

Lemma opened_flow (ra rb : R) :
  2 / 10 <= ra -> 2 / 10 <= rb ->
  flow (opened ra rb) = (100 / ra - 100 / rb) * (5 / 10000).
Proof.
  intros Ha Hb. unfold flow, p1, p2.
  rewrite opened_curR1, opened_curR2 by assumption.
  unfold SURFACE_TENSION, FLOW_RATE_CONSTANT. field; lra.
Qed.

(** The default sliders: radii [1.2] and [0.8]. *)
Lemma default_flow : flow (opened (12 / 10) (8 / 10)) = - (1 / 48).
Proof. rewrite opened_flow by lra. field. Qed.

(** The first two ticks after opening are regular when the first flow
    leaves both volumes above the floor. *)
Lemma opened_two_ticks (ra rb : R) (k : nat) :
  2 / 10 <= ra -> 2 / 10 <= rb ->
  floorVolume <= volumeOfRadius ra - (100 / ra - 100 / rb) * (5 / 10000) ->
  floorVolume <= volumeOfRadius rb + (100 / ra - 100 / rb) * (5 / 10000) ->
  (k < 2)%nat -> collapsed (steps k (opened ra rb)) = false.
Proof.
  intros Ha Hb H1 H2 Hk.
  pose proof (opened_not_collapsed ra rb Ha Hb) as H0.
  destruct k as [|[|k]]; [exact H0 | | lia].
  simpl steps. rewrite step_regular by (reflexivity || exact H0).
  apply collapsed_false_iff; simpl. rewrite opened_flow by assumption.
  split; assumption.
Qed.

Lemma default_two_ticks (k : nat) :
  (k < 2)%nat -> collapsed (steps k (opened (12 / 10) (8 / 10))) = false.
Proof.
  pose proof floorVolume_bounds. pose proof PI_gt_3.
  apply opened_two_ticks; unfold volumeOfRadius; lra.
Qed.

Lemma swapped_two_ticks (k : nat) :
  (k < 2)%nat -> collapsed (steps k (opened (8 / 10) (12 / 10))) = false.
Proof.
  pose proof floorVolume_bounds. pose proof PI_gt_3.
  apply opened_two_ticks; unfold volumeOfRadius; lra.
Qed.

Lemma equal_two_ticks (k : nat) :
  (k < 2)%nat -> collapsed (steps k (opened 1 1)) = false.
Proof.
  pose proof floorVolume_bounds. pose proof PI_gt_3.
  apply opened_two_ticks; unfold volumeOfRadius; lra.
Qed.

Lemma volume_conservation_witness :
  totalVolume (steps 2 (opened (12 / 10) (8 / 10)))
  = totalVolume (opened (12 / 10) (8 / 10)).
Proof.
  apply (volume_conservation (opened (12 / 10) (8 / 10)) 2).
  - reflexivity.
  - exact default_two_ticks.
Defined.

(** [opened] is what the synchronisation effect leaves when the valve is
    opened on a settled component, whatever the stored volumes were. *)
Lemma opened_syncVolumes (ra rb : R) (vols : Volumes) :
  opened ra rb = syncVolumes (mkState ra rb true false vols).
Proof. reflexivity. Qed.

(** ** Mechanics: direction of the flow *)

Lemma pressure_lt (a b : R) : 0 < a -> a < b -> pressure b < pressure a.
Proof.
  intros Ha Hab. unfold pressure, SURFACE_TENSION, Rdiv.
  apply Rmult_lt_compat_l; [lra|].
  apply Rinv_lt_contravar; nra.
Qed.

Lemma curR1_pos (s : State) : 0 < curR1 s.
Proof. apply radiusOfVolume_pos. Qed.

Lemma curR2_pos (s : State) : 0 < curR2 s.
Proof. apply radiusOfVolume_pos. Qed.

Lemma flow_pos (s : State) : curR1 s < curR2 s -> 0 < flow s.
Proof.
  intros H. pose proof (pressure_lt _ _ (curR1_pos s) H) as Hp.
  unfold flow, p1, p2, FLOW_RATE_CONSTANT. unfold pressure in Hp. nra.
Qed.

Lemma flow_zero (s : State) : curR1 s = curR2 s -> flow s = 0.
Proof. intros H. unfold flow, p1, p2. rewrite H. ring. Qed.

Lemma step_inSync (s : State) :
  valveOpen s = true -> collapsed s = false -> inSync (step s).
Proof. intros Hv Hc. rewrite step_regular by assumption. split; reflexivity. Qed.

Lemma opened_inSync (ra rb : R) :
  2 / 10 <= ra -> 2 / 10 <= rb -> inSync (opened ra rb).
Proof.
  intros Ha Hb. split; simpl; [rewrite opened_curR1 | rewrite opened_curR2];
    auto.
Qed.

(** A regular tick with the smaller bubble on side A: air leaves A, and A is
    still the smaller bubble afterwards. *)
Lemma step_smaller_loses (s : State) :
  valveOpen s = true -> collapsed s = false -> curR1 s < curR2 s ->
  0 < flow s /\
  v1 (stateRef (step s)) < v1 (stateRef s) /\
  v2 (stateRef s) < v2 (stateRef (step s)) /\
  curR1 (step s) < curR2 (step s).
Proof.
  intros Hv Hc Hlt. pose proof (flow_pos s Hlt) as Hf.
  rewrite step_regular by assumption. simpl.
  repeat split; try lra.
  unfold curR1, curR2, safeV1, safeV2 in *; simpl.
  apply Rle_lt_trans with (radiusOfVolume (Rmax (1 / 10000) (v1 (stateRef s)))).
  { apply radiusOfVolume_le; [apply safe_pos | apply safe_mono; lra]. }
  apply Rlt_le_trans with (radiusOfVolume (Rmax (1 / 10000) (v2 (stateRef s)))).
  { exact Hlt. }
  apply radiusOfVolume_le; [apply safe_pos | apply safe_mono; lra].
Qed.

(** A regular tick with equal bubbles changes nothing that [step] reads. *)
Lemma step_equal_stays (s : State) :
  valveOpen s = true -> collapsed s = false -> curR1 s = curR2 s ->
  flow s = 0 /\ stateRef (step s) = stateRef s /\
  curR1 (step s) = curR2 (step s).
Proof.
  intros Hv Hc Heq. pose proof (flow_zero s Heq) as Hf.
  rewrite step_regular by assumption.
  unfold curR1, curR2, safeV1, safeV2 in *; simpl. rewrite Hf.
  rewrite Rminus_0_r, Rplus_0_r. repeat split; try assumption.
  destruct (stateRef s); reflexivity.
Qed.

Lemma steps_inSync (n : nat) (s : State) :
  valveOpen s = true -> inSync s ->
  (forall k, (k < n)%nat -> collapsed (steps k s) = false) ->
  inSync (steps n s).
Proof.
  intros Hv Hs Hc. destruct n as [|n]; [exact Hs|].
  simpl. apply step_inSync; [|apply Hc; lia].
  apply steps_valve_open; [assumption|]. intros k Hk; apply Hc; lia.
Qed.

Lemma steps_smaller_stays (n : nat) (s : State) :
  valveOpen s = true -> curR1 s < curR2 s ->
  (forall k, (k < n)%nat -> collapsed (steps k s) = false) ->
  curR1 (steps n s) < curR2 (steps n s).
Proof.
  intros Hv Hlt. induction n as [|n IH]; intros Hc; [exact Hlt|].
  simpl. apply step_smaller_loses.
  - apply steps_valve_open; [assumption|]. intros k Hk; apply Hc; lia.
  - apply Hc; lia.
  - apply IH. intros k Hk; apply Hc; lia.
Qed.

Lemma steps_equal_stays (n : nat) (s : State) :
  valveOpen s = true -> curR1 s = curR2 s ->
  (forall k, (k < n)%nat -> collapsed (steps k s) = false) ->
  curR1 (steps n s) = curR2 (steps n s).
Proof.
  intros Hv Heq. induction n as [|n IH]; intros Hc; [exact Heq|].
  simpl. apply step_equal_stays.
  - apply steps_valve_open; [assumption|]. intros k Hk; apply Hc; lia.
  - apply Hc; lia.
  - apply IH. intros k Hk; apply Hc; lia.
Qed.

(** Flow direction on the recovered radii: with the valve open, let the
    radii be the ones [step] recovers from the stored volumes.  If bubble A
    is the smaller one then on every
    tick up to the first collapse the flow is strictly positive, A loses
    exactly that volume, B gains it, and A stays the smaller bubble; if the
    two radii are equal the flow is zero on every such tick.  The radii on
    display are these recovered radii after every regular tick, and before
    the first one when the state is in sync. *)
Theorem flow_direction (s : State) (n : nat) :
  valveOpen s = true ->
  (forall k, (k <= n)%nat -> collapsed (steps k s) = false) ->
  (curR1 s < curR2 s ->
   forall k, (k <= n)%nat ->
     curR1 (steps k s) < curR2 (steps k s) /\
     p2 (steps k s) < p1 (steps k s) /\
     0 < flow (steps k s) /\
     v1 (stateRef (steps (S k) s)) = v1 (stateRef (steps k s)) - flow (steps k s) /\
     v2 (stateRef (steps (S k) s)) = v2 (stateRef (steps k s)) + flow (steps k s) /\
     v1 (stateRef (steps (S k) s)) < v1 (stateRef (steps k s)) /\
     v2 (stateRef (steps k s)) < v2 (stateRef (steps (S k) s))) /\
  (curR1 s = curR2 s ->
   forall k, (k <= n)%nat ->
     curR1 (steps k s) = curR2 (steps k s) /\
     flow (steps k s) = 0 /\
     stateRef (steps (S k) s) = stateRef (steps k s)) /\
  (forall k, (k <= n)%nat -> inSync s \/ (0 < k)%nat -> inSync (steps k s)).
Proof.
  intros Hv Hc.
  assert (Hopen : forall k, (k <= n)%nat -> valveOpen (steps k s) = true).
  { intros k Hk. apply steps_valve_open; [assumption|].
    intros j Hj; apply Hc; lia. }
  split; [|split].
  - intros Hlt k Hk.
    assert (Hord : curR1 (steps k s) < curR2 (steps k s)).
    { apply steps_smaller_stays; try assumption.
      intros j Hj; apply Hc; lia. }
    destruct (step_smaller_loses (steps k s) (Hopen k Hk) (Hc k Hk) Hord)
      as (Hf & Ha & Hb & _).
    pose proof (pressure_lt _ _ (curR1_pos (steps k s)) Hord) as Hp.
    simpl steps in *.
    rewrite step_regular in * by (apply Hopen || apply Hc; assumption).
    simpl in *. repeat split; assumption || reflexivity.
  - intros Heq k Hk.
    assert (Hord : curR1 (steps k s) = curR2 (steps k s)).
    { apply steps_equal_stays; try assumption.
      intros j Hj; apply Hc; lia. }
    destruct (step_equal_stays (steps k s) (Hopen k Hk) (Hc k Hk) Hord)
      as (Hf & Hst & _).
    simpl steps. repeat split; assumption.
  - intros k Hk [Hs | Hpos].
    + apply steps_inSync; try assumption. intros j Hj; apply Hc; lia.
    + destruct k as [|k]; [lia|]. simpl. apply step_inSync.
      * apply Hopen; lia.
      * apply Hc; lia.
Qed.

Lemma flow_direction_witness :
  0 < flow (steps 1 (opened (8 / 10) (12 / 10))) /\
  flow (steps 1 (opened 1 1)) = 0.
Proof.
  split.
  - apply (flow_direction (opened (8 / 10) (12 / 10)) 1).
    + reflexivity.
    + intros k Hk. apply swapped_two_ticks. lia.
    + rewrite opened_curR1, opened_curR2 by lra. lra.
    + apply le_n.
  - apply (flow_direction (opened 1 1) 1).
    + reflexivity.
    + intros k Hk. apply equal_two_ticks. lia.
    + rewrite opened_curR1, opened_curR2 by lra. reflexivity.
    + apply le_n.
Defined.

(** ** Mechanics: pressure *)

Lemma displayPressure_above (r : R) :
  1 / 10 <= r -> displayPressure r = pressure r.
Proof.
  intros H. unfold displayPressure, pressure. rewrite Rmax_right; auto.
Qed.

Lemma displayPressure_below (r : R) : r <= 1 / 10 -> displayPressure r = 1000.
Proof.
  intros H. unfold displayPressure, SURFACE_TENSION.
  rewrite Rmax_left by assumption. field.
Qed.

Lemma displayPressure_le (a b : R) :
  a <= b -> displayPressure b <= displayPressure a.
Proof.
  intros Hab. unfold displayPressure, SURFACE_TENSION, Rdiv.
  pose proof (Rmax_l (1 / 10) a). 
  apply Rmult_le_compat_l; [lra|].
  apply Rinv_le_contravar; [lra|].
  apply Rle_max_compat_l; assumption.
Qed.

(** C3, as the code has it: [step] computes each pressure as [2 * 50 / r]
    from the recovered radius, and that expression is strictly decreasing
    over positive radii.  The pressure on display divides by
    [max (0.1, r)]: it is the same expression and strictly decreasing from
    radius [0.1] upwards, constant at [1000] below, and never increasing. *)
Theorem pressure_ordering (ra rb : R) :
  0 < ra -> ra < rb ->
  (forall s, p1 s = pressure (curR1 s) /\ p2 s = pressure (curR2 s)) /\
  pressure ra = (2 * 50) / ra /\
  pressure rb < pressure ra /\
  displayPressure rb <= displayPressure ra /\
  (1 / 10 <= ra ->
     displayPressure ra = (2 * 50) / ra /\
     displayPressure rb < displayPressure ra) /\
  (rb <= 1 / 10 -> displayPressure ra = 1000 /\ displayPressure rb = 1000).
Proof.
  intros Ha Hab. split; [intros s; split; reflexivity|].
  split; [reflexivity|].
  split; [apply pressure_lt; assumption|].
  split; [apply displayPressure_le; lra|].
  split.
  - intros Hlo. rewrite !displayPressure_above by lra.
    split; [reflexivity | apply pressure_lt; assumption].
  - intros Hhi. rewrite !displayPressure_below by lra. split; reflexivity.
Qed.

Lemma pressure_ordering_witness :
  pressure (12 / 10) < pressure (8 / 10) /\
  displayPressure (12 / 10) < displayPressure (8 / 10).
Proof.
  split.
  - apply (pressure_ordering (8 / 10) (12 / 10)); lra.
  - apply (pressure_ordering (8 / 10) (12 / 10)); lra.
Defined.

(** Two positive radii, the first smaller, whose displayed pressures are
    equal, and the displayed pressure of the first is not [2 * 50 / r]. *)
Lemma pressure_ordering_counterexample :
  0 < 5 / 100 < 8 / 100 /\
  ~ displayPressure (8 / 100) < displayPressure (5 / 100) /\
  displayPressure (5 / 100) <> (2 * SURFACE_TENSION) / (5 / 100).
Proof.
  rewrite !displayPressure_below by lra. unfold SURFACE_TENSION.
  repeat split; lra.
Qed.

(** ** Mechanics: a tick that overshoots *)

Lemma PI_lt_35 : PI < 35 / 10.
Proof.
  destruct (PI_ineq 1) as [_ H].
  unfold sum_f_R0, tg_alt, PI_tg in H. simpl in H. lra.
Qed.

Lemma overshoot_eq :
  overshoot =
  mkState (radiusOfVolume (1 / 10000))
          (radiusOfVolume (volumeOfRadius 2 + 17 / 120))
          true true
          (mkVolumes (volumeOfRadius (3 / 10) - 17 / 120)
                     (volumeOfRadius 2 + 17 / 120)).
Proof.
  pose proof PI_gt_3. pose proof PI_lt_35. pose proof floorVolume_bounds.
  unfold overshoot.
  rewrite step_regular
    by (reflexivity || (apply opened_not_collapsed; lra)).
  rewrite opened_flow by lra. simpl.
  replace ((100 / (3 / 10) - 100 / 2) * (5 / 10000)) with (17 / 120) by field.
  rewrite Rmax_left by (unfold volumeOfRadius; lra).
  rewrite safe_id by (unfold volumeOfRadius; lra).
  reflexivity.
Qed.

Lemma minimal_radius_small : radiusOfVolume (1 / 10000) < 1 / 10.
Proof.
  pose proof PI_gt_3.
  pose proof (radiusOfVolume_volumeOfRadius (1 / 10)) as Hr.
  rewrite <- Hr by lra.
  apply radiusOfVolume_lt; unfold volumeOfRadius; lra.
Qed.

Lemma overshoot_valve : valveOpen overshoot = true.
Proof. rewrite overshoot_eq. reflexivity. Qed.

Lemma overshoot_r1 : r1 overshoot = radiusOfVolume (1 / 10000).
Proof. rewrite overshoot_eq. reflexivity. Qed.

Lemma overshoot_curR1 : curR1 overshoot = radiusOfVolume (1 / 10000).
Proof.
  pose proof PI_lt_35.
  rewrite overshoot_eq. unfold curR1, safeV1; simpl.
  rewrite Rmax_left by (unfold volumeOfRadius; lra). reflexivity.
Qed.

Lemma overshoot_curR2 : 2 < curR2 overshoot.
Proof.
  pose proof PI_gt_3. pose proof floorVolume_bounds.
  rewrite overshoot_eq. unfold curR2, safeV2; simpl.
  rewrite safe_id by (unfold volumeOfRadius; lra).
  pose proof (radiusOfVolume_volumeOfRadius 2) as Hr.
  apply Rle_lt_trans with (radiusOfVolume (volumeOfRadius 2)); [lra|].
  apply radiusOfVolume_lt; unfold volumeOfRadius; lra.
Qed.

Lemma overshoot_collapsed : collapsed overshoot = true.
Proof.
  unfold collapsed. rewrite overshoot_curR1.
  pose proof minimal_radius_small.
  replace (Rltb (radiusOfVolume (1 / 10000)) (2 / 10)) with true; [reflexivity|].
  symmetry; apply Rltb_true; lra.
Qed.

(** ** Mechanics: size of the flow *)

(** C4, as the code has it: on a valve-open tick that does not detect
    collapse the volume leaving A and entering B is
    [(p1 - p2) * FLOW_RATE_CONSTANT] with the constant [0.0005]; no time
    step enters the product.  On the tick that detects collapse nothing is
    transferred. *)
Theorem flow_magnitude (s : State) :
  valveOpen s = true ->
  FLOW_RATE_CONSTANT = 5 / 10000 /\
  (collapsed s = false ->
     transferred s = (p1 s - p2 s) * FLOW_RATE_CONSTANT /\
     v2 (stateRef (step s)) - v2 (stateRef s)
     = (p1 s - p2 s) * FLOW_RATE_CONSTANT) /\
  (collapsed s = true ->
     transferred s = 0 /\ v2 (stateRef (step s)) - v2 (stateRef s) = 0).
Proof.
  intros Hv. split; [reflexivity|]. split; intros Hc; unfold transferred.
  - rewrite step_regular by assumption. simpl. unfold flow. split; ring.
  - rewrite step_collapse by assumption. simpl. split; ring.
Qed.

Lemma flow_magnitude_witness :
  transferred (opened (12 / 10) (8 / 10))
  = (p1 (opened (12 / 10) (8 / 10)) - p2 (opened (12 / 10) (8 / 10)))
    * FLOW_RATE_CONSTANT.
Proof.
  apply (flow_magnitude (opened (12 / 10) (8 / 10))).
  - reflexivity.
  - apply opened_not_collapsed; lra.
Defined.

Lemma overshoot_pressures : p2 overshoot < p1 overshoot.
Proof.
  pose proof minimal_radius_small. pose proof overshoot_curR2.
  apply (pressure_lt (curR1 overshoot) (curR2 overshoot)).
  - apply curR1_pos.
  - rewrite overshoot_curR1. lra.
Qed.

(** With a time step of one, the valve-open tick [overshoot] transfers
    nothing although the pressures differ; with a time step of two, the
    first tick from the default sliders transfers half of the product. *)
Lemma flow_magnitude_counterexample :
  (valveOpen overshoot = true /\
   transferred overshoot
   <> (p1 overshoot - p2 overshoot) * FLOW_RATE_CONSTANT * 1) /\
  (valveOpen (opened (12 / 10) (8 / 10)) = true /\
   collapsed (opened (12 / 10) (8 / 10)) = false /\
   transferred (opened (12 / 10) (8 / 10))
   <> (p1 (opened (12 / 10) (8 / 10)) - p2 (opened (12 / 10) (8 / 10)))
      * FLOW_RATE_CONSTANT * 2).
Proof.
  split; [split | split; [|split]].
  - exact overshoot_valve.
  - unfold transferred.
    rewrite step_collapse by (exact overshoot_valve || exact overshoot_collapsed).
    simpl. pose proof overshoot_pressures. unfold FLOW_RATE_CONSTANT. nra.
  - reflexivity.
  - apply opened_not_collapsed; lra.
  - unfold transferred.
    rewrite step_regular
      by (reflexivity || (apply opened_not_collapsed; lra)).
    cbn [v1 stateRef].
    change ((p1 (opened (12 / 10) (8 / 10)) - p2 (opened (12 / 10) (8 / 10)))
            * FLOW_RATE_CONSTANT)
      with (flow (opened (12 / 10) (8 / 10))).
    rewrite default_flow. lra.
Qed.

(** ** Mechanics: termination *)

Lemma syncVolumes_radii (s : State) :
  r1 (syncVolumes s) = r1 s /\ r2 (syncVolumes s) = r2 s /\
  valveOpen (syncVolumes s) = valveOpen s.
Proof. unfold syncVolumes. destruct (animating s); repeat split. Qed.

(** With the valve closed neither [step] nor the effect touches the radii or
    the valve. *)
Lemma call_closed (c : Call) (s : State) :
  valveOpen s = false ->
  r1 (call c s) = r1 s /\ r2 (call c s) = r2 s /\ valveOpen (call c s) = false.
Proof.
  intros Hv. destruct c; simpl.
  - rewrite step_closed by assumption. repeat split.
  - destruct (syncVolumes_radii s) as (-> & -> & ->). repeat split; assumption.
Qed.

Lemma run_closed (l : list Call) (s : State) :
  valveOpen s = false ->
  r1 (run l s) = r1 s /\ r2 (run l s) = r2 s /\ valveOpen (run l s) = false.
Proof.
  revert s. induction l as [|c l IH]; intros s Hv; [repeat split; assumption|].
  simpl. destruct (call_closed c s Hv) as (H1 & H2 & H3).
  destruct (IH (call c s) H3) as (-> & -> & ->). repeat split; assumption.
Qed.

(** C10: the call of [step] that detects collapse writes neither the stored
    volumes nor the radii: no flow is applied and nothing is clamped; it
    only closes the valve and clears [animating]. *)
Theorem collapse_step_atomic (s : State) :
  valveOpen s = true -> collapsed s = true ->
  stateRef (step s) = stateRef s /\
  r1 (step s) = r1 s /\
  r2 (step s) = r2 s /\
  transferred s = 0 /\
  valveOpen (step s) = false /\
  animating (step s) = false.
Proof.
  intros Hv Hc. unfold transferred. rewrite step_collapse by assumption.
  simpl. repeat split. ring.
Qed.

Lemma collapse_step_atomic_witness :
  stateRef (step overshoot) = stateRef overshoot /\
  r1 (step overshoot) = r1 overshoot /\
  r2 (step overshoot) = r2 overshoot /\
  transferred overshoot = 0 /\
  valveOpen (step overshoot) = false /\
  animating (step overshoot) = false.
Proof.
  apply (collapse_step_atomic overshoot).
  - exact overshoot_valve.
  - exact overshoot_collapsed.
Defined.

(** C5, as the code has it: when a recovered radius is below the floor
    [0.2], [step] closes the valve and clears [animating], leaving the radii
    and the stored volumes as they are (nothing is clamped); from then on
    no sequence of [step] calls and synchronisation effects changes a radius
    or opens the valve. *)
Theorem termination_policy (s : State) (l : list Call) :
  valveOpen s = true -> collapsed s = true ->
  valveOpen (step s) = false /\
  animating (step s) = false /\
  r1 (step s) = r1 s /\
  r2 (step s) = r2 s /\
  stateRef (step s) = stateRef s /\
  r1 (run l (step s)) = r1 s /\
  r2 (run l (step s)) = r2 s /\
  valveOpen (run l (step s)) = false.
Proof.
  intros Hv Hc.
  assert (Hclosed : valveOpen (step s) = false)
    by (rewrite step_collapse by assumption; reflexivity).
  destruct (run_closed l (step s) Hclosed) as (-> & -> & ->).
  rewrite step_collapse by assumption. simpl. repeat split.
Qed.

Lemma termination_policy_witness :
  r1 (run (CallSync :: CallStep :: CallStep :: nil) (step overshoot))
  = r1 overshoot /\
  valveOpen (run (CallSync :: CallStep :: CallStep :: nil) (step overshoot))
  = false.
Proof.
  split.
  - apply (termination_policy overshoot (CallSync :: CallStep :: CallStep :: nil)).
    + exact overshoot_valve.
    + exact overshoot_collapsed.
  - apply (termination_policy overshoot (CallSync :: CallStep :: CallStep :: nil)).
    + exact overshoot_valve.
    + exact overshoot_collapsed.
Defined.

(** The tick after [overshoot] detects collapse and leaves radius A where it
    was, below the floor. *)
Lemma termination_policy_counterexample :
  valveOpen overshoot = true /\
  collapsed overshoot = true /\
  r1 (step overshoot) = r1 overshoot /\
  r1 (step overshoot) < 2 / 10 /\
  r1 (step overshoot) <> Rmax (2 / 10) (r1 overshoot).
Proof.
  pose proof minimal_radius_small as Hm.
  split; [exact overshoot_valve|]. split; [exact overshoot_collapsed|].
  rewrite step_collapse by (exact overshoot_valve || exact overshoot_collapsed).
  simpl. rewrite overshoot_r1.
  rewrite Rmax_left by lra. repeat split; lra.
Qed.

(** ** Geometry: square roots *)

Import Geometry.

Lemma sqrt2_bounds : 14142 / 10000 < sqrt 2 < 14143 / 10000.
Proof.
  pose proof (sqrt_pos 2) as Hp.
  pose proof (sqrt_def 2 ltac:(lra)) as Hd.
  split; nra.
Qed.

Lemma sqrt3_bounds : 17320 / 10000 < sqrt 3 < 17321 / 10000.
Proof.
  pose proof (sqrt_pos 3) as Hp.
  pose proof (sqrt_def 3 ltac:(lra)) as Hd.
  split; nra.
Qed.

Lemma norm_of_square (u : Point) (a : R) :
  0 <= a -> dot u u = a * a -> norm u = a.
Proof. intros Ha Hd. unfold norm. rewrite Hd. now apply sqrt_square. Qed.

Lemma offset_sqrt3 : offset * sqrt 3 = 100.
Proof.
  pose proof sqrt3_bounds. unfold offset. field. lra.
Qed.

Lemma offset_square : offset * offset = 10000 / 3.
Proof.
  pose proof sqrt3_bounds as Hb.
  pose proof (sqrt_def 3 ltac:(lra)) as Hd.
  unfold offset. 
  replace (100 / sqrt 3 * (100 / sqrt 3)) with (10000 / (sqrt 3 * sqrt 3))
    by (field; lra).
  rewrite Hd. reflexivity.
Qed.

Lemma offset_bounds : 5773 / 100 < offset < 5774 / 100.
Proof.
  pose proof offset_sqrt3. pose proof sqrt3_bounds. split; nra.
Qed.

(** Lengths of the drawn segments. *)
Lemma dist_corner_junction :
  dist tl sp1 = 2 * offset /\ dist tr sp1 = 2 * offset /\
  dist bl sp2 = 2 * offset /\ dist br sp2 = 2 * offset.
Proof.
  pose proof offset_bounds. pose proof offset_square.
  repeat split; apply norm_of_square; try lra;
    unfold dot, vec; simpl; nra.
Qed.

Lemma dist_junctions : dist sp1 sp2 = 200 - 2 * offset.
Proof.
  pose proof offset_bounds.
  apply norm_of_square; [lra|]. unfold dot, vec; simpl. ring.
Qed.

Lemma dist_diagonals :
  dist tl br = 200 * sqrt 2 /\ dist tr bl = 200 * sqrt 2.
Proof.
  pose proof sqrt2_bounds. pose proof (sqrt_def 2 ltac:(lra)).
  split; apply norm_of_square; try lra; unfold dot, vec; simpl; nra.
Qed.

(** ** Geometry: the two total lengths *)

(** C6: for the unit square the direct length is [2 * sqrt 2 * side], the
    soap-film length is [side * (1 + sqrt 3)], the second is strictly
    smaller, and each is within [0.001] of its closed form and of the
    decimals [2.828] and [2.732].  The segments that are drawn have these
    lengths at the scale of 200 pixels per unit. *)
Theorem steiner_inequality :
  sideLength = 1 /\
  lenDirect = 2 * sqrt 2 * sideLength /\
  lenSoap = sideLength * (1 + sqrt 3) /\
  lenSoap < lenDirect /\
  Rabs (lenSoap - (1 + sqrt 3)) < 1 / 1000 /\
  Rabs (lenDirect - 2 * sqrt 2) < 1 / 1000 /\
  Rabs (lenSoap - 2732 / 1000) < 1 / 1000 /\
  Rabs (lenDirect - 2828 / 1000) < 1 / 1000 /\
  totalLength (lines soap) = size * lenSoap /\
  totalLength (lines direct) = size * lenDirect /\
  (forall mode, shownLength soap <= shownLength mode).
Proof.
  pose proof sqrt2_bounds as H2. pose proof sqrt3_bounds as H3.
  unfold lenDirect, lenSoap, sideLength, size.
  repeat split; try reflexivity.
  - lra.
  - apply Rabs_def1; lra.
  - apply Rabs_def1; lra.
  - apply Rabs_def1; lra.
  - apply Rabs_def1; lra.
  - simpl. destruct dist_corner_junction as (-> & -> & -> & ->).
    rewrite dist_junctions. pose proof offset_sqrt3 as Ho.
    pose proof (sqrt_def 3 ltac:(lra)) as Hd.
    assert (Ho3 : 3 * offset = 100 * sqrt 3) by nra. lra.
  - simpl. destruct dist_diagonals as (-> & ->). lra.
  - intros []; unfold shownLength, lenDirect, lenSoap, sideLength; lra.
Qed.

(** ** Geometry: the junctions *)

Lemma angle_of_half (u v : Point) :
  0 < norm u * norm v ->
  2 * dot u v = - (norm u * norm v) ->
  acos (dot u v / (norm u * norm v)) = 2 * (PI / 3).
Proof.
  intros Hn Hd. pose proof PI_RGT_0 as Hpi.
  set (n := norm u * norm v) in *.
  replace (dot u v / n) with (-1 / 2).
  - rewrite <- cos_2PI3. apply acos_cos. lra.
  - replace (dot u v) with (- n / 2) by lra.
    field. lra.
Qed.

Lemma norms_at_junctions :
  norm (vec sp1 tl) = 2 * offset /\ norm (vec sp1 tr) = 2 * offset /\
  norm (vec sp1 sp2) = 200 - 2 * offset /\
  norm (vec sp2 bl) = 2 * offset /\ norm (vec sp2 br) = 2 * offset /\
  norm (vec sp2 sp1) = 200 - 2 * offset.
Proof.
  pose proof offset_bounds. pose proof offset_square.
  repeat split; apply norm_of_square; try lra;
    unfold dot, vec; simpl; nra.
Qed.

(** C7, as the code has it: both junctions lie on the vertical midline
    [x = 150] of the square, each at [(side / 2) / sqrt 3] from the nearer
    edge (the top one for [sp1], the bottom one for [sp2]), and the three
    segments drawn at each junction meet at exactly 120 degrees.  It is the
    segment from a corner to its junction that has length
    [side / sqrt 3]. *)
Theorem steiner_junctions :
  size = x tr - x tl /\
  x sp1 = (x tl + x tr) / 2 /\
  x sp2 = (x bl + x br) / 2 /\
  y sp1 - y tl = (size / 2) / sqrt 3 /\
  y bl - y sp2 = (size / 2) / sqrt 3 /\
  y sp1 - y tl < y bl - y sp1 /\
  y sp1 - y tl < x sp1 - x tl /\
  y sp1 - y tl < x tr - x sp1 /\
  y bl - y sp2 < y sp2 - y tl /\
  y bl - y sp2 < x sp2 - x bl /\
  y bl - y sp2 < x br - x sp2 /\
  dist tl sp1 = size / sqrt 3 /\
  dist br sp2 = size / sqrt 3 /\
  meetsAt120 sp1 tl tr sp2 /\
  meetsAt120 sp2 bl br sp1.
Proof.
  pose proof offset_bounds as Hb. pose proof offset_square as Hsq.
  pose proof sqrt3_bounds as H3.
  assert (Hs : 200 / sqrt 3 = 2 * offset) by (unfold offset; field; lra).
  destruct norms_at_junctions as (N1 & N2 & N3 & N4 & N5 & N6).
  destruct dist_corner_junction as (D1 & _ & _ & D4).
  unfold size. rewrite D1, D4, Hs.
  repeat split; simpl; fold offset; try lra;
    unfold angleAt; apply angle_of_half;
    rewrite ?N1, ?N2, ?N3, ?N4, ?N5, ?N6;
    unfold dot, vec; simpl; nra.
Qed.

(** The distance of each junction from the nearer edge is not
    [side / sqrt 3], neither in pixels nor in units of the side. *)
Lemma steiner_junctions_counterexample :
  size = x tr - x tl /\
  y sp1 - y tl <> size / sqrt 3 /\
  y bl - y sp2 <> size / sqrt 3 /\
  (y sp1 - y tl) / size <> sideLength / sqrt 3.
Proof.
  pose proof offset_bounds as Hb. pose proof offset_sqrt3 as Ho.
  pose proof sqrt3_bounds as H3.
  assert (Hs : 200 / sqrt 3 = 2 * offset) by (unfold offset; field; lra).
  assert (Hu : 1 / sqrt 3 = offset / 100) by (unfold offset; field; lra).
  unfold size, sideLength; simpl. rewrite Hs, Hu.
  repeat split; lra.
Qed.

(** ** Optics: the colour bands *)

Import Optics.

Ltac decide_Rltb :=
  repeat match goal with
  | |- context [Rltb ?a ?b] =>
      first
        [ replace (Rltb a b) with true by (symmetry; apply Rltb_true; lra)
        | replace (Rltb a b) with false by (symmetry; apply Rltb_false; lra) ]
  end.

Lemma bandColor_css (b : Band) : bandColor b = css (bandRGB b).
Proof. destruct b; vm_compute; reflexivity. Qed.

Lemma interferenceColor_band (t : R) (b : Band) :
  inBand b (Rmax 0 t) -> interferenceColor t = bandColor b.
Proof.
  unfold interferenceColor, inBand. generalize (Rmax 0 t) as u.
  intros u [Hlo Hhi]. destruct b; simpl in *; decide_Rltb; reflexivity.
Qed.

Lemma band_cover (t : R) : exists b, inBand b (Rmax 0 t).
Proof.
  pose proof (Rmax_l 0 t) as H0. revert H0. generalize (Rmax 0 t) as u.
  intros u H0. unfold inBand.
  destruct (Rlt_le_dec u 30); [exists Black; simpl; lra|].
  destruct (Rlt_le_dec u 120); [exists SilveryWhite; simpl; lra|].
  destruct (Rlt_le_dec u 250); [exists Gold; simpl; lra|].
  destruct (Rlt_le_dec u 350); [exists Purple; simpl; lra|].
  destruct (Rlt_le_dec u 450); [exists Blue; simpl; lra|].
  destruct (Rlt_le_dec u 550); [exists Green; simpl; lra|].
  destruct (Rlt_le_dec u 650); [exists Yellow; simpl; lra|].
  destruct (Rlt_le_dec u 800); [exists RedPink; simpl; lra|].
  exists HighOrder; simpl; split; [lra | exact I].
Qed.

(** C8: [interferenceColor] is the step function over the nine ordered
    bands: after clamping the thickness at zero, the result is the fixed
    colour of the band that holds it, every thickness falls in a band, each
    band colour is one byte triple, and every negative thickness gets the
    colour of thickness zero, the black one. *)
Theorem color_bands :
  (forall t b, inBand b (Rmax 0 t) -> interferenceColor t = bandColor b) /\
  (forall t, exists b, inBand b (Rmax 0 t)) /\
  (forall b, bandColor b = css (bandRGB b)) /\
  (forall t, t < 0 ->
     interferenceColor t = interferenceColor 0 /\
     interferenceColor 0 = bandColor Black).
Proof.
  split; [exact interferenceColor_band|].
  split; [exact band_cover|].
  split; [exact bandColor_css|].
  intros t Ht.
  assert (H0 : interferenceColor 0 = bandColor Black).
  { apply interferenceColor_band. rewrite Rmax_left by lra.
    unfold inBand; simpl; lra. }
  split; [|exact H0]. rewrite H0.
  apply interferenceColor_band. rewrite Rmax_left by lra.
  unfold inBand; simpl; lra.
Qed.

Lemma color_bands_witness :
  interferenceColor 700 = bandColor RedPink /\
  interferenceColor (-50) = interferenceColor 0.
Proof.
  split.
  - apply color_bands. rewrite Rmax_right by lra.
    unfold inBand; simpl; lra.
  - apply (proj2 (proj2 (proj2 color_bands)) (-50)). lra.
Defined.

Lemma interferenceColor_400 : interferenceColor 400 = bandColor Blue.
Proof.
  apply interferenceColor_band. rewrite Rmax_right by lra.
  unfold inBand; simpl; lra.
Qed.

(** C9, as the code has it: thickness 400 lies in the blue band
    [350, 450) and gets the blue colour [rgb(50, 100, 255)]. *)
Theorem color_at_400 :
  inBand Blue 400 /\
  interferenceColor 400 = bandColor Blue /\
  bandColor Blue = "rgb(50, 100, 255)"%string /\
  bandRGB Blue = mkRGB 50 100 255.
Proof.
  split; [unfold inBand; simpl; lra|].
  split; [exact interferenceColor_400|]. split; reflexivity.
Qed.

(** Thickness 400 does not get the colour of the gold band. *)
Lemma color_at_400_counterexample :
  interferenceColor 400 <> bandColor Gold.
Proof. rewrite interferenceColor_400. simpl. discriminate. Qed.

(** ** Mechanics: the direction shown by the particles *)

(** When the radii on display are in sync with the stored volumes, the
    particles run to the right only if air really flows from A to B, and to
    the left only if it flows from B to A. *)
Lemma flowDir_agrees (s : State) :
  inSync s ->
  (flowDir s = DirRight -> 0 < flow s) /\
  (flowDir s = DirLeft -> flow s < 0).
Proof.
  intros [Hs1 Hs2]. unfold flowDir.
  destruct (Rltb (Rabs (r1 s - r2 s)) (1 / 100)) eqn:Hab.
  { split; discriminate. }
  apply Rltb_false in Hab.
  destruct (Rltb (r1 s) (r2 s)) eqn:Hlt; split; try discriminate; intros _.
  - apply Rltb_true in Hlt. apply flow_pos. rewrite <- Hs1, <- Hs2. exact Hlt.
  - apply Rltb_false in Hlt.
    assert (Hne : r2 s < r1 s).
    { destruct Hlt as [Hlt | Heq]; [exact Hlt|].
      rewrite Heq, Rminus_diag, Rabs_R0 in Hab. lra. }
    rewrite Hs1, Hs2 in Hne.
    pose proof (pressure_lt _ _ (curR2_pos s) Hne) as Hp.
    unfold flow, p1, p2, FLOW_RATE_CONSTANT. unfold pressure in Hp. nra.
Qed.

(** * Further properties of the component *)

(** ** Radius and volume are inverse to each other *)

(** For a positive radius, recovering the radius from its volume gives the
    radius back; for a positive volume, the volume of the recovered radius
    is the volume. *)
Theorem radius_volume_round_trip (r v : R) :
  0 < r -> 0 < v ->
  radiusOfVolume (volumeOfRadius r) = r /\
  volumeOfRadius (radiusOfVolume v) = v.
Proof.
  intros Hr Hv. split; [now apply radiusOfVolume_volumeOfRadius|].
  pose proof PI_gt_3 as Hpi. unfold volumeOfRadius.
  rewrite radiusOfVolume_cube by assumption. field. lra.
Qed.

Lemma radius_volume_round_trip_witness :
  radiusOfVolume (volumeOfRadius (12 / 10)) = 12 / 10 /\
  volumeOfRadius (radiusOfVolume 2) = 2.
Proof. apply (radius_volume_round_trip (12 / 10) 2); lra. Defined.

(** ** Bounds of a regular tick *)

Lemma pressure_le (a b : R) : 0 < a -> a <= b -> pressure b <= pressure a.
Proof.
  intros Ha [Hab | ->]; [left; now apply pressure_lt | right; reflexivity].
Qed.

Lemma collapsed_false_radii (s : State) :
  collapsed s = false -> 2 / 10 <= curR1 s /\ 2 / 10 <= curR2 s.
Proof.
  unfold collapsed. rewrite orb_false_iff, !Rltb_false. tauto.
Qed.

Lemma minimal_radius_bounds : 27 / 1000 < radiusOfVolume (1 / 10000).
Proof.
  pose proof PI_gt_3. pose proof PI_lt_35.
  pose proof (radiusOfVolume_volumeOfRadius (27 / 1000)) as Hr.
  rewrite <- Hr by lra.
  apply radiusOfVolume_lt; unfold volumeOfRadius; [|lra].
  apply Rmult_lt_0_compat; lra.
Qed.

Lemma safe_radius_lower (v : R) :
  radiusOfVolume (1 / 10000) <= radiusOfVolume (Rmax (1 / 10000) v).
Proof. apply radiusOfVolume_le; [lra | apply Rmax_l]. Qed.

(** On a regular tick both pressures lie in (0, 500], so less than a quarter
    of a volume unit moves, in either direction. *)
Theorem regular_tick_flow_bound (s : State) :
  valveOpen s = true -> collapsed s = false ->
  0 < p1 s <= 500 /\ 0 < p2 s <= 500 /\ Rabs (flow s) < 1 / 4 /\
  Rabs (v1 (stateRef (step s)) - v1 (stateRef s)) < 1 / 4 /\
  Rabs (v2 (stateRef (step s)) - v2 (stateRef s)) < 1 / 4.
Proof.
  intros Hv Hc. destruct (collapsed_false_radii s Hc) as [H1 H2].
  assert (Hp : forall r, 2 / 10 <= r -> 0 < pressure r <= 500).
  { intros r Hr. split.
    - unfold pressure, SURFACE_TENSION. apply Rdiv_lt_0_compat; lra.
    - replace 500 with (pressure (2 / 10))
        by (unfold pressure, SURFACE_TENSION; field).
      apply pressure_le; lra. }
  pose proof (Hp _ H1) as Hp1. pose proof (Hp _ H2) as Hp2.
  change (pressure (curR1 s)) with (p1 s) in Hp1.
  change (pressure (curR2 s)) with (p2 s) in Hp2.
  assert (Hf : Rabs (flow s) < 1 / 4).
  { unfold flow, FLOW_RATE_CONSTANT. apply Rabs_def1; lra. }
  rewrite step_regular by assumption. simpl.
  repeat split; try lra.
  - replace (v1 (stateRef s) - flow s - v1 (stateRef s)) with (- flow s) by ring.
    rewrite Rabs_Ropp. exact Hf.
  - replace (v2 (stateRef s) + flow s - v2 (stateRef s)) with (flow s) by ring.
    exact Hf.
Qed.

Lemma regular_tick_flow_bound_witness :
  Rabs (flow (opened (3 / 10) 2)) < 1 / 4.
Proof.
  apply (regular_tick_flow_bound (opened (3 / 10) 2)).
  - reflexivity.
  - apply opened_not_collapsed; lra.
Defined.

(** After a regular tick each radius on display is at least the radius of
    the volume [0.0001], which is above [0.027]: a radius never reaches
    zero, but it may be below the collapse floor [0.2]. *)
Theorem regular_tick_radius_floor (s : State) :
  valveOpen s = true -> collapsed s = false ->
  radiusOfVolume (1 / 10000) <= r1 (step s) /\
  radiusOfVolume (1 / 10000) <= r2 (step s) /\
  27 / 1000 < radiusOfVolume (1 / 10000) < 1 / 10.
Proof.
  intros Hv Hc. rewrite step_regular by assumption. simpl.
  split; [apply safe_radius_lower|]. split; [apply safe_radius_lower|].
  split; [apply minimal_radius_bounds | apply minimal_radius_small].
Qed.

Lemma regular_tick_radius_floor_witness :
  radiusOfVolume (1 / 10000) <= r1 (step (opened (3 / 10) 2)).
Proof.
  apply (regular_tick_radius_floor (opened (3 / 10) 2)).
  - reflexivity.
  - apply opened_not_collapsed; lra.
Defined.

(** ** Exchanging the two bubbles *)

Import Lab.

Lemma swap_collapsed (s : State) : collapsed (swap s) = collapsed s.
Proof. unfold collapsed, curR1, curR2, safeV1, safeV2; simpl. apply orb_comm. Qed.

Lemma swap_flow (s : State) : flow (swap s) = - flow s.
Proof. unfold flow, p1, p2, curR1, curR2, safeV1, safeV2; simpl. ring. Qed.

Lemma swap_step (s : State) : step (swap s) = swap (step s).
Proof.
  unfold step. rewrite swap_collapsed.
  change (valveOpen (swap s)) with (valveOpen s).
  destruct (valveOpen s); [destruct (collapsed s)|]; try reflexivity.
  rewrite swap_flow. unfold swap; simpl.
  replace (v2 (stateRef s) - - flow s) with (v2 (stateRef s) + flow s) by ring.
  replace (v1 (stateRef s) + - flow s) with (v1 (stateRef s) - flow s) by ring.
  reflexivity.
Qed.

Lemma swap_steps (n : nat) (s : State) : steps n (swap s) = swap (steps n s).
Proof.
  induction n as [|n IH]; [reflexivity|]. simpl. rewrite IH. apply swap_step.
Qed.

(** The simulation treats the two bubbles alike: exchanging them before any
    number of ticks is the same as exchanging them afterwards, and it
    reverses the flow. *)
Theorem swap_symmetry (n : nat) (s : State) :
  steps n (swap s) = swap (steps n s) /\
  flow (steps n (swap s)) = - flow (steps n s) /\
  collapsed (steps n (swap s)) = collapsed (steps n s).
Proof.
  rewrite swap_steps. split; [reflexivity|].
  split; [apply swap_flow | apply swap_collapsed].
Qed.

(** ** The simulation stops by itself exactly when the bubbles differ *)

Lemma step_gap_widens (s : State) :
  valveOpen s = true -> collapsed s = false -> curR1 s < curR2 s ->
  flow s <= flow (step s).
Proof.
  intros Hv Hc Hlt. pose proof (flow_pos s Hlt) as Hf.
  assert (H1 : curR1 (step s) <= curR1 s).
  { rewrite step_regular by assumption. unfold curR1, safeV1; simpl.
    apply radiusOfVolume_le; [apply safe_pos | apply safe_mono; lra]. }
  assert (H2 : curR2 s <= curR2 (step s)).
  { rewrite step_regular by assumption. unfold curR2, safeV2; simpl.
    apply radiusOfVolume_le; [apply safe_pos | apply safe_mono; lra]. }
  pose proof (pressure_le _ _ (curR1_pos (step s)) H1) as Hp1.
  pose proof (pressure_le _ _ (curR2_pos s) H2) as Hp2.
  unfold flow, p1, p2, FLOW_RATE_CONSTANT. unfold pressure in Hp1, Hp2. lra.
Qed.

Lemma steps_smaller_drains (n : nat) (s : State) :
  valveOpen s = true -> curR1 s < curR2 s ->
  (forall k, (k < n)%nat -> collapsed (steps k s) = false) ->
  flow s <= flow (steps n s) /\
  v1 (stateRef (steps n s)) <= v1 (stateRef s) - INR n * flow s.
Proof.
  intros Hv Hlt. pose proof (flow_pos s Hlt) as Hf.
  induction n as [|n IH]; intros Hc.
  { simpl. split; lra. }
  destruct IH as [IHf IHv]; [intros k Hk; apply Hc; lia|].
  assert (Hopen : valveOpen (steps n s) = true).
  { apply steps_valve_open; [assumption|]. intros k Hk; apply Hc; lia. }
  assert (Hcn : collapsed (steps n s) = false) by (apply Hc; lia).
  assert (Hord : curR1 (steps n s) < curR2 (steps n s)).
  { apply steps_smaller_stays; try assumption. intros k Hk; apply Hc; lia. }
  pose proof (step_gap_widens _ Hopen Hcn Hord) as Hg.
  rewrite S_INR. simpl steps. split; [lra|].
  rewrite step_regular by assumption. simpl. lra.
Qed.

Lemma first_true_upto (P : nat -> bool) (N : nat) :
  (exists n, (n <= N)%nat /\ P n = true /\
             forall k, (k < n)%nat -> P k = false) \/
  (forall k, (k <= N)%nat -> P k = false).
Proof.
  induction N as [|N [(n & Hn & Hp & Hfirst) | Hall]].
  - destruct (P 0%nat) eqn:H0.
    + left. exists 0%nat. repeat split; [lia | assumption | intros k Hk; lia].
    + right. intros k Hk. replace k with 0%nat by lia. assumption.
  - left. exists n. repeat split; [lia | assumption | assumption].
  - destruct (P (S N)) eqn:HS.
    + left. exists (S N). repeat split; [lia | assumption |].
      intros k Hk. apply Hall. lia.
    + right. intros k Hk. destruct (Nat.eq_dec k (S N)) as [-> | Hne];
        [assumption | apply Hall; lia].
Qed.

Lemma smaller_side_collapses (s : State) :
  valveOpen s = true -> curR1 s < curR2 s ->
  exists n,
    (forall k, (k < n)%nat -> collapsed (steps k s) = false) /\
    collapsed (steps n s) = true /\
    Rltb (curR1 (steps n s)) (2 / 10) = true /\
    valveOpen (steps n s) = true.
Proof.
  intros Hv Hlt. pose proof (flow_pos s Hlt) as Hf.
  destruct (INR_archimed (flow s) (v1 (stateRef s) - floorVolume) Hf)
    as [N HN].
  destruct (first_true_upto (fun k => collapsed (steps k s)) N)
    as [(n & Hn & Hc & Hfirst) | Hall].
  - exists n. split; [exact Hfirst|]. split; [exact Hc|].
    pose proof (steps_smaller_stays n s Hv Hlt Hfirst) as Hord.
    split; [|apply steps_valve_open; assumption].
    unfold collapsed in Hc. apply orb_true_iff in Hc.
    destruct Hc as [Hc | Hc]; [exact Hc|].
    apply Rltb_true. apply Rltb_true in Hc. lra.
  - exfalso.
    destruct (steps_smaller_drains N s Hv Hlt) as [_ Hd].
    { intros k Hk. apply Hall. lia. }
    pose proof (Hall N (le_n N)) as HcN. cbv beta in HcN.
    apply collapsed_false_iff in HcN. lra.
Qed.

(** With the valve open and two different recovered radii, some tick
    detects collapse: every tick before it is regular, the bubble that was
    the smaller one is the one below the floor, and the tick closes the
    valve and clears [animating]. *)
Theorem simulation_stops (s : State) :
  valveOpen s = true -> curR1 s <> curR2 s ->
  exists n,
    (forall k, (k < n)%nat -> collapsed (steps k s) = false) /\
    collapsed (steps n s) = true /\
    valveOpen (steps (S n) s) = false /\
    animating (steps (S n) s) = false /\
    (curR1 s < curR2 s -> curR1 (steps n s) < 2 / 10) /\
    (curR2 s < curR1 s -> curR2 (steps n s) < 2 / 10).
Proof.
  intros Hv Hne.
  destruct (Rtotal_order (curR1 s) (curR2 s)) as [Hlt | [Heq | Hgt]];
    [| contradiction |].
  - destruct (smaller_side_collapses s Hv Hlt) as (n & Hfirst & Hc & Hr & Ho).
    exists n. split; [exact Hfirst|]. split; [exact Hc|].
    simpl steps. rewrite step_collapse by assumption. simpl.
    repeat split; intros H; [now apply Rltb_true | lra].
  - assert (Hlt : curR1 (swap s) < curR2 (swap s)) by exact Hgt.
    destruct (smaller_side_collapses (swap s) Hv Hlt)
      as (n & Hfirst & Hc & Hr & Ho).
    rewrite swap_steps in Hc, Hr, Ho. rewrite swap_collapsed in Hc.
    exists n. split.
    { intros k Hk. rewrite <- swap_collapsed, <- swap_steps. now apply Hfirst. }
    split; [exact Hc|].
    simpl steps. rewrite step_collapse by assumption. simpl.
    repeat split; intros H; [lra|].
    apply Rltb_true in Hr. exact Hr.
Qed.

Lemma simulation_stops_witness :
  exists n,
    (forall k, (k < n)%nat ->
       collapsed (steps k (opened (12 / 10) (8 / 10))) = false) /\
    collapsed (steps n (opened (12 / 10) (8 / 10))) = true /\
    valveOpen (steps (S n) (opened (12 / 10) (8 / 10))) = false.
Proof.
  destruct (simulation_stops (opened (12 / 10) (8 / 10))) as (n & H1 & H2 & H3 & _).
  - reflexivity.
  - rewrite opened_curR1, opened_curR2 by lra. lra.
  - exists n. repeat split; assumption.
Defined.

(** ** Equal bubbles never stop *)

Lemma stateRef_collapsed (s t : State) :
  stateRef s = stateRef t -> collapsed s = collapsed t.
Proof.
  intros H. unfold collapsed, curR1, curR2, safeV1, safeV2. rewrite H.
  reflexivity.
Qed.

Lemma stateRef_radii (s t : State) :
  stateRef s = stateRef t -> curR1 s = curR1 t /\ curR2 s = curR2 t.
Proof.
  intros H. unfold curR1, curR2, safeV1, safeV2. rewrite H. split; reflexivity.
Qed.

(** With the valve open on two bubbles of equal recovered radius at or above
    the floor, no tick ever detects collapse: the valve stays open, the
    stored volumes never change, and from the first tick on the whole state
    is the same. *)
Theorem equal_bubbles_never_stop (s : State) (n : nat) :
  valveOpen s = true -> collapsed s = false -> curR1 s = curR2 s ->
  valveOpen (steps n s) = true /\
  collapsed (steps n s) = false /\
  stateRef (steps n s) = stateRef s /\
  steps (S n) s = step s.
Proof.
  intros Hv Hc Heq.
  assert (Hinv : valveOpen (steps n s) = true /\ stateRef (steps n s) = stateRef s).
  { induction n as [|n [IHv IHs]]; [split; [assumption | reflexivity]|].
    assert (Hcn : collapsed (steps n s) = false)
      by (rewrite (stateRef_collapsed _ s IHs); exact Hc).
    assert (Heqn : curR1 (steps n s) = curR2 (steps n s)).
    { destruct (stateRef_radii _ s IHs) as [-> ->]. exact Heq. }
    destruct (step_equal_stays _ IHv Hcn Heqn) as (_ & Hst & _).
    simpl steps. split; [|congruence].
    rewrite step_regular by assumption. reflexivity. }
  destruct Hinv as [Hvn Hsn].
  assert (Hcn : collapsed (steps n s) = false)
    by (rewrite (stateRef_collapsed _ s Hsn); exact Hc).
  repeat split; try assumption.
  simpl steps. rewrite !step_regular by assumption.
  unfold flow, p1, p2. destruct (stateRef_radii _ s Hsn) as [-> ->].
  rewrite Hsn. reflexivity.
Qed.

Lemma equal_bubbles_never_stop_witness :
  valveOpen (steps 1000 (opened 1 1)) = true /\
  collapsed (steps 1000 (opened 1 1)) = false.
Proof.
  destruct (equal_bubbles_never_stop (opened 1 1) 1000) as (H1 & H2 & _).
  - reflexivity.
  - apply opened_not_collapsed; lra.
  - rewrite opened_curR1, opened_curR2 by lra. reflexivity.
  - split; assumption.
Defined.

(** ** The component as a state machine *)

Lemma Reqb_refl (a : R) : Reqb a a = true.
Proof. unfold Reqb. destruct (Req_dec_T a a); [reflexivity | contradiction]. Qed.

Lemma Reqb_true (a b : R) : Reqb a b = true <-> a = b.
Proof. unfold Reqb. destruct (Req_dec_T a b); split; intros; easy. Qed.

Lemma depsChanged_false (old new : State) :
  depsChanged old new = false ->
  r1 old = r1 new /\ r2 old = r2 new /\ animating old = animating new.
Proof.
  unfold depsChanged. rewrite negb_false_iff, !andb_true_iff, !Reqb_true.
  intros [[H1 H2] H3]. apply Bool.eqb_prop in H3. repeat split; assumption.
Qed.

Lemma depsChanged_same (s t : State) :
  r1 s = r1 t -> r2 s = r2 t -> animating s = animating t ->
  depsChanged s t = false.
Proof.
  intros H1 H2 H3. unfold depsChanged.
  rewrite H1, H2, H3, !Reqb_refl, Bool.eqb_reflx. reflexivity.
Qed.

Lemma syncVolumes_animating (s : State) :
  animating s = true -> syncVolumes s = s.
Proof. intros H. unfold syncVolumes. rewrite H. reflexivity. Qed.

Lemma syncVolumes_idle (s : State) :
  animating s = false ->
  syncVolumes s =
  mkState (r1 s) (r2 s) (valveOpen s) false
    (mkVolumes (volumeOfRadius (r1 s)) (volumeOfRadius (r2 s))).
Proof. intros H. unfold syncVolumes. rewrite H. reflexivity. Qed.

(** The effects never touch the radii, the valve or [animating]. *)
Lemma effects_cells (old new : Component) :
  r1 (st (effects old new)) = r1 (st new) /\
  r2 (st (effects old new)) = r2 (st new) /\
  valveOpen (st (effects old new)) = valveOpen (st new) /\
  animating (st (effects old new)) = animating (st new).
Proof.
  unfold effects; simpl. destruct (depsChanged (st old) (st new)).
  - unfold syncVolumes. destruct (animating (st new)) eqn:Ha; simpl; auto.
  - auto.
Qed.

Lemma effects_animating (old new : Component) :
  animating (st new) = true ->
  st (effects old new) = st new.
Proof.
  intros Ha. unfold effects; simpl.
  rewrite syncVolumes_animating by assumption.
  destruct (depsChanged (st old) (st new)); reflexivity.
Qed.

Lemma effects_same (c : Component) : effects c c = c.
Proof.
  unfold effects. rewrite depsChanged_same, Bool.eqb_reflx by reflexivity.
  destruct c; reflexivity.
Qed.

(** After the effects, an idle component has its volumes synchronised as
    soon as it had them before or a dependency changed. *)
Lemma effects_synced (old new : Component) :
  animating (st new) = false ->
  (depsChanged (st old) (st new) = false -> volumesSynced (st new)) ->
  volumesSynced (st (effects old new)).
Proof.
  intros Ha Hkeep. unfold effects; simpl.
  destruct (depsChanged (st old) (st new)).
  - rewrite syncVolumes_idle by assumption. reflexivity.
  - apply Hkeep. reflexivity.
Qed.

Lemma effects_pending (old new : Component) :
  pending new = valveOpen (st new) ->
  pending (effects old new) = valveOpen (st (effects old new)).
Proof.
  intros H. destruct (effects_cells old new) as (_ & _ & -> & _).
  unfold effects; simpl.
  destruct (Bool.eqb (valveOpen (st old)) (valveOpen (st new))); auto.
Qed.

Lemma effects_pending_flip (old new : Component) :
  valveOpen (st new) = negb (valveOpen (st old)) ->
  pending (effects old new) = valveOpen (st new).
Proof.
  intros H. unfold effects; simpl. rewrite H.
  destruct (valveOpen (st old)); reflexivity.
Qed.

Lemma consistent_intro (old new : Component) :
  pending (effects old new) = valveOpen (st new) ->
  (animating (st new) = false ->
   depsChanged (st old) (st new) = false -> volumesSynced (st new)) ->
  consistent (effects old new).
Proof.
  intros Hp Hs. destruct (effects_cells old new) as (_ & _ & Hv & Ha).
  split; [congruence|]. rewrite Ha. intros Hidle.
  apply effects_synced; auto.
Qed.

Lemma dispatch_consistent (e : Event) (c : Component) :
  consistent c -> consistent (dispatch e c).
Proof.
  destruct c as [s p]. intros [Hp Hs]. simpl in Hp, Hs. subst p.
  unfold dispatch. destruct e as [| a | a | |]; simpl handle.
  - (* ClickValve *)
    apply consistent_intro.
    + apply effects_pending_flip. reflexivity.
    + simpl. intros Ha _. apply Hs in Ha. exact Ha.
  - (* SlideR1 *)
    destruct (valveOpen s) eqn:Hv.
    { rewrite effects_same. split; simpl; auto. }
    apply consistent_intro.
    + unfold effects; simpl. destruct (Bool.eqb _ _); reflexivity.
    + simpl. intros Ha Hd. apply depsChanged_false in Hd. simpl in Hd.
      destruct Hd as (H1 & _ & _). unfold volumesSynced; simpl.
      rewrite <- H1. apply Hs. exact Ha.
  - (* SlideR2 *)
    destruct (valveOpen s) eqn:Hv.
    { rewrite effects_same. split; simpl; auto. }
    apply consistent_intro.
    + unfold effects; simpl. destruct (Bool.eqb _ _); reflexivity.
    + simpl. intros Ha Hd. apply depsChanged_false in Hd. simpl in Hd.
      destruct Hd as (_ & H2 & _). unfold volumesSynced; simpl.
      rewrite <- H2. apply Hs. exact Ha.
  - (* ClickReset *)
    apply consistent_intro.
    + unfold effects; simpl. destruct (valveOpen s); reflexivity.
    + simpl. intros Ha Hd. apply depsChanged_false in Hd. simpl in Hd.
      destruct Hd as (H1 & H2 & _). unfold volumesSynced; simpl.
      rewrite <- H1, <- H2. apply Hs. exact Ha.
  - (* Frame *)
    simpl. destruct (valveOpen s) eqn:Hv.
    2:{ rewrite effects_same. split; simpl; auto. }
    destruct (collapsed s) eqn:Hc.
    + rewrite step_collapse by assumption. apply consistent_intro.
      * apply effects_pending_flip. simpl. rewrite Hv. reflexivity.
      * simpl. intros _ Hd. apply depsChanged_false in Hd. simpl in Hd.
        destruct Hd as (_ & _ & Ha). apply Hs. exact Ha.
    + rewrite step_regular by assumption. apply consistent_intro.
      * unfold effects; simpl. rewrite Hv. reflexivity.
      * simpl. discriminate.
Qed.

(** An event changes the radii, the valve and [animating] only through its
    handler. *)
Lemma dispatch_cells (e : Event) (c : Component) :
  r1 (st (dispatch e c)) = r1 (st (handle e c)) /\
  r2 (st (dispatch e c)) = r2 (st (handle e c)) /\
  valveOpen (st (dispatch e c)) = valveOpen (st (handle e c)) /\
  animating (st (dispatch e c)) = animating (st (handle e c)).
Proof. apply effects_cells. Qed.

Lemma mounted_consistent : consistent mounted.
Proof. split; [reflexivity|]. intros _. reflexivity. Qed.

Lemma runEvents_consistent (l : list Event) (c : Component) :
  consistent c -> consistent (runEvents l c).
Proof.
  revert c. induction l as [|e l IH]; intros c Hc; [exact Hc|].
  simpl. apply IH. apply dispatch_consistent. exact Hc.
Qed.

(** Whatever the user does after mounting, a frame callback is scheduled
    exactly while the valve is open: [step] is never called with the valve
    closed, so its last branch never runs, and a frame on a closed valve
    changes nothing. *)
Theorem frame_only_while_open (l : list Event) :
  pending (runEvents l mounted) = valveOpen (st (runEvents l mounted)) /\
  (valveOpen (st (runEvents l mounted)) = false ->
   dispatch Frame (runEvents l mounted) = runEvents l mounted).
Proof.
  destruct (runEvents_consistent l mounted mounted_consistent) as [Hp _].
  split; [exact Hp|]. intros Hv. unfold dispatch; simpl.
  rewrite Hp, Hv. apply effects_same.
Qed.

Lemma frame_only_while_open_witness :
  dispatch Frame (runEvents (SlideR1 (5 / 10) :: nil) mounted)
  = runEvents (SlideR1 (5 / 10) :: nil) mounted.
Proof.
  apply (frame_only_while_open (SlideR1 (5 / 10) :: nil)).
  change (runEvents (SlideR1 (5 / 10) :: nil) mounted)
    with (dispatch (SlideR1 (5 / 10)) mounted).
  destruct (dispatch_cells (SlideR1 (5 / 10)) mounted) as (_ & _ & -> & _).
  reflexivity.
Defined.

(** Whatever the user does after mounting, whenever [animating] is off the
    stored volumes are the volumes of the two radii on display. *)
Theorem idle_volumes_follow_radii (l : list Event) :
  animating (st (runEvents l mounted)) = false ->
  volumesSynced (st (runEvents l mounted)).
Proof.
  destruct (runEvents_consistent l mounted mounted_consistent) as [_ Hs].
  exact Hs.
Qed.

Lemma idle_volumes_follow_radii_witness :
  volumesSynced (st (runEvents (SlideR1 (5 / 10) :: nil) mounted)).
Proof.
  apply (idle_volumes_follow_radii (SlideR1 (5 / 10) :: nil)).
  change (runEvents (SlideR1 (5 / 10) :: nil) mounted)
    with (dispatch (SlideR1 (5 / 10)) mounted).
  destruct (dispatch_cells (SlideR1 (5 / 10)) mounted) as (_ & _ & _ & ->).
  reflexivity.
Defined.

(** ** What each event does to a consistent component *)

Lemma dispatch_slide1_idle (c : Component) (a : R) :
  consistent c -> valveOpen (st c) = false -> animating (st c) = false ->
  dispatch (SlideR1 a) c =
  mkComponent
    (mkState a (r2 (st c)) false false
       (mkVolumes (volumeOfRadius a) (volumeOfRadius (r2 (st c)))))
    false.
Proof.
  destruct c as [s p]. intros [Hp Hs] Hv Ha. simpl in *. subst p.
  unfold dispatch, effects; simpl. rewrite Hv, Ha; simpl.
  rewrite ?Hv, ?Ha; simpl.
  destruct (depsChanged s (mkState a (r2 s) false false (stateRef s))) eqn:Hd.
  - reflexivity.
  - apply depsChanged_false in Hd. simpl in Hd. destruct Hd as (H1 & _ & _).
    rewrite (Hs Ha), H1. reflexivity.
Qed.

Lemma dispatch_slide2_idle (c : Component) (a : R) :
  consistent c -> valveOpen (st c) = false -> animating (st c) = false ->
  dispatch (SlideR2 a) c =
  mkComponent
    (mkState (r1 (st c)) a false false
       (mkVolumes (volumeOfRadius (r1 (st c))) (volumeOfRadius a)))
    false.
Proof.
  destruct c as [s p]. intros [Hp Hs] Hv Ha. simpl in *. subst p.
  unfold dispatch, effects; simpl. rewrite Hv, Ha; simpl.
  rewrite ?Hv, ?Ha; simpl.
  destruct (depsChanged s (mkState (r1 s) a false false (stateRef s))) eqn:Hd.
  - reflexivity.
  - apply depsChanged_false in Hd. simpl in Hd. destruct Hd as (_ & H2 & _).
    rewrite (Hs Ha), H2. reflexivity.
Qed.

Lemma dispatch_click_closed (c : Component) :
  valveOpen (st c) = false ->
  dispatch ClickValve c =
  mkComponent
    (mkState (r1 (st c)) (r2 (st c)) true (animating (st c)) (stateRef (st c)))
    true.
Proof.
  destruct c as [s p]. intros Hv. simpl in Hv.
  unfold dispatch, effects; simpl. rewrite Hv; simpl.
  rewrite depsChanged_same by reflexivity. reflexivity.
Qed.

Lemma dispatch_frame_regular (c : Component) :
  pending c = true -> valveOpen (st c) = true -> collapsed (st c) = false ->
  dispatch Frame c = mkComponent (step (st c)) true.
Proof.
  destruct c as [s p]. simpl. intros -> Hv Hc.
  unfold dispatch; simpl handle. rewrite Hv, Hc. simpl andb.
  assert (Ha : animating (step s) = true)
    by (rewrite step_regular by assumption; reflexivity).
  assert (Ho : valveOpen (step s) = true)
    by (rewrite step_regular by assumption; reflexivity).
  unfold effects. cbn [st pending].
  rewrite syncVolumes_animating by assumption. rewrite Hv, Ho.
  destruct (depsChanged s (step s)); reflexivity.
Qed.

Lemma dispatch_frame_collapse (c : Component) :
  pending c = true -> valveOpen (st c) = true -> collapsed (st c) = true ->
  animating (st c) = true ->
  dispatch Frame c =
  mkComponent
    (mkState (r1 (st c)) (r2 (st c)) false false
       (mkVolumes (volumeOfRadius (r1 (st c))) (volumeOfRadius (r2 (st c)))))
    false.
Proof.
  destruct c as [s p]. simpl. intros -> Hv Hc Ha.
  unfold dispatch; simpl handle. rewrite Hv, Hc. simpl andb.
  rewrite step_collapse by assumption.
  unfold effects, depsChanged; simpl.
  rewrite !Reqb_refl, Ha, Hv. reflexivity.
Qed.

(** ** Reset *)

(** After any sequence of events that leaves [animating] off, the Reset
    button brings the component back to exactly the state it had when it was
    mounted. *)
Theorem reset_when_idle (l : list Event) :
  animating (st (runEvents l mounted)) = false ->
  dispatch ClickReset (runEvents l mounted) = mounted.
Proof.
  pose proof (runEvents_consistent l mounted mounted_consistent) as Hc.
  destruct (runEvents l mounted) as [s p]. destruct Hc as [Hp Hs].
  simpl in *. intros Ha. subst p.
  unfold dispatch, effects; simpl. rewrite Ha.
  destruct (depsChanged s (mkState (12 / 10) (8 / 10) false false (stateRef s)))
    eqn:Hd.
  - unfold mounted. simpl. f_equal. destruct (valveOpen s); reflexivity.
  - apply depsChanged_false in Hd. simpl in Hd. destruct Hd as (H1 & H2 & _).
    rewrite (Hs Ha), H1, H2. unfold mounted; simpl. f_equal.
    destruct (valveOpen s); reflexivity.
Qed.

Lemma reset_when_idle_witness :
  dispatch ClickReset
    (runEvents (SlideR1 (5 / 10) :: ClickValve :: nil) mounted) = mounted.
Proof.
  apply (reset_when_idle (SlideR1 (5 / 10) :: ClickValve :: nil)).
  change (runEvents (SlideR1 (5 / 10) :: ClickValve :: nil) mounted)
    with (dispatch ClickValve (dispatch (SlideR1 (5 / 10)) mounted)).
  rewrite dispatch_slide1_idle by (reflexivity || exact mounted_consistent).
  rewrite dispatch_click_closed by reflexivity.
  reflexivity.
Defined.

(** ** Sliders and the valve button on an idle component *)

Lemma open_after_sliders (c : Component) (a b : R) :
  consistent c -> valveOpen (st c) = false -> animating (st c) = false ->
  runEvents (SlideR1 a :: SlideR2 b :: ClickValve :: nil) c
  = mkComponent (opened a b) true.
Proof.
  intros Hc Hv Ha. simpl runEvents.
  pose proof (dispatch_consistent (SlideR1 a) c Hc) as Hc1.
  rewrite dispatch_slide1_idle in * by assumption.
  rewrite dispatch_slide2_idle by (reflexivity || exact Hc1).
  rewrite dispatch_click_closed by reflexivity.
  reflexivity.
Qed.

(** On a component whose valve is closed and whose [animating] is off,
    setting the two sliders and pressing the valve button gives the state
    [opened a b]: the radii are the slider values, the stored volumes are
    their volumes, and a frame is scheduled. *)
Theorem sliders_then_open (l : list Event) (a b : R) :
  valveOpen (st (runEvents l mounted)) = false ->
  animating (st (runEvents l mounted)) = false ->
  runEvents (SlideR1 a :: SlideR2 b :: ClickValve :: nil) (runEvents l mounted)
  = mkComponent (opened a b) true.
Proof.
  intros Hv Ha. apply open_after_sliders; try assumption.
  apply runEvents_consistent, mounted_consistent.
Qed.

Lemma sliders_then_open_witness :
  runEvents (SlideR1 (3 / 10) :: SlideR2 2 :: ClickValve :: nil) mounted
  = mkComponent (opened (3 / 10) 2) true.
Proof. apply (sliders_then_open nil (3 / 10) 2); reflexivity. Defined.

(** ** Interrupting a simulation *)

Lemma input_keeps_animating (e : Event) (c : Component) :
  animating (st c) = true -> isInput e = true ->
  animating (st (dispatch e c)) = true /\
  stateRef (st (dispatch e c)) = stateRef (st c).
Proof.
  intros Ha He.
  assert (H : animating (st (handle e c)) = true /\
              stateRef (st (handle e c)) = stateRef (st c)).
  { destruct e as [| a | a | |]; try discriminate; simpl;
      try (destruct (valveOpen (st c)); simpl); auto. }
  destruct H as [H1 H2]. unfold dispatch.
  rewrite effects_animating by assumption. auto.
Qed.

Lemma inputs_keep_animating (l : list Event) (c : Component) :
  animating (st c) = true -> forallb isInput l = true ->
  animating (st (runEvents l c)) = true /\
  stateRef (st (runEvents l c)) = stateRef (st c).
Proof.
  revert c. induction l as [|e l IH]; intros c Ha Hl; [auto|].
  simpl in Hl. apply andb_true_iff in Hl. destruct Hl as [He Hl].
  destruct (input_keeps_animating e c Ha He) as [H1 H2].
  simpl. destruct (IH (dispatch e c) H1 Hl) as [H3 H4].
  split; [assumption | congruence].
Qed.

Lemma step_reads_volumes (s t : State) :
  valveOpen s = true -> valveOpen t = true -> collapsed s = false ->
  stateRef s = stateRef t -> step s = step t.
Proof.
  intros Hs Ht Hc Heq.
  assert (Hct : collapsed t = false)
    by (rewrite <- (stateRef_collapsed s t Heq); exact Hc).
  rewrite !step_regular by assumption.
  unfold flow, p1, p2. destruct (stateRef_radii s t Heq) as [-> ->].
  rewrite Heq. reflexivity.
Qed.

(** Once [animating] is on, no click and no slider change turns it off or
    touches the stored volumes: only a frame that detects collapse does.  In
    particular closing the valve by hand, or pressing Reset while the
    simulation runs, leaves the stored volumes of the interrupted
    simulation behind whatever radii are put on display. *)
Theorem inputs_never_clear_animating (l : list Event) (c : Component) :
  animating (st c) = true -> forallb isInput l = true ->
  animating (st (runEvents l c)) = true /\
  stateRef (st (runEvents l c)) = stateRef (st c) /\
  r1 (st (runEvents (l ++ ClickReset :: nil) c)) = 12 / 10 /\
  r2 (st (runEvents (l ++ ClickReset :: nil) c)) = 8 / 10 /\
  stateRef (st (runEvents (l ++ ClickReset :: nil) c)) = stateRef (st c).
Proof.
  intros Ha Hl.
  destruct (inputs_keep_animating l c Ha Hl) as [H1 H2].
  split; [exact H1|]. split; [exact H2|].
  assert (Happ : runEvents (l ++ ClickReset :: nil) c
                 = dispatch ClickReset (runEvents l c)).
  { clear. revert c. induction l as [|e l IH]; intros c; [reflexivity|].
    simpl. apply IH. }
  rewrite Happ.
  destruct (dispatch_cells ClickReset (runEvents l c)) as (-> & -> & _ & _).
  destruct (input_keeps_animating ClickReset (runEvents l c) H1 eq_refl)
    as [_ ->].
  repeat split. exact H2.
Qed.

(** The component one frame after the valve is opened on the default
    sliders. *)
Lemma simulating_default :
  runEvents (ClickValve :: Frame :: nil) mounted
  = mkComponent (step (opened (12 / 10) (8 / 10))) true.
Proof.
  simpl runEvents. rewrite dispatch_click_closed by reflexivity.
  rewrite dispatch_frame_regular;
    [reflexivity | reflexivity | reflexivity |].
  apply (opened_not_collapsed (12 / 10) (8 / 10)); lra.
Qed.

Lemma simulating_default_animating :
  animating (st (runEvents (ClickValve :: Frame :: nil) mounted)) = true.
Proof.
  rewrite simulating_default. cbn [st].
  rewrite step_regular; [reflexivity | reflexivity |].
  apply opened_not_collapsed; lra.
Qed.

Lemma inputs_never_clear_animating_witness :
  animating
    (st (runEvents (ClickValve :: SlideR1 (5 / 10) :: nil)
           (runEvents (ClickValve :: Frame :: nil) mounted))) = true /\
  stateRef
    (st (runEvents (ClickValve :: SlideR1 (5 / 10) :: nil)
           (runEvents (ClickValve :: Frame :: nil) mounted)))
  = stateRef (st (runEvents (ClickValve :: Frame :: nil) mounted)).
Proof.
  destruct (inputs_never_clear_animating
              (ClickValve :: SlideR1 (5 / 10) :: nil)
              (runEvents (ClickValve :: Frame :: nil) mounted))
    as (H1 & H2 & _).
  - exact simulating_default_animating.
  - reflexivity.
  - split; assumption.
Defined.

(** If a running simulation is interrupted by clicks and slider changes and
    the valve is open again afterwards, the next frame is the tick of the
    interrupted simulation: it is computed from the stored volumes that
    were left behind, and the radii put on display in between are
    overwritten. *)
Theorem interrupted_simulation_resumes (l : list Event) (c : Component) :
  consistent c -> animating (st c) = true -> collapsed (st c) = false ->
  forallb isInput l = true ->
  valveOpen (st (runEvents l c)) = true ->
  dispatch Frame (runEvents l c)
  = mkComponent
      (step (mkState (r1 (st c)) (r2 (st c)) true true (stateRef (st c))))
      true.
Proof.
  intros Hc Ha Hcol Hl Hv.
  destruct (inputs_keep_animating l c Ha Hl) as [H1 H2].
  destruct (runEvents_consistent l c Hc) as [Hp _].
  assert (Hcol' : collapsed (st (runEvents l c)) = false).
  { rewrite (stateRef_collapsed _ (st c) H2). exact Hcol. }
  rewrite dispatch_frame_regular by congruence.
  f_equal. apply step_reads_volumes; auto.
Qed.

Lemma interrupted_simulation_resumes_witness :
  dispatch Frame
    (runEvents (ClickReset :: ClickValve :: nil)
       (runEvents (ClickValve :: Frame :: nil) mounted))
  = mkComponent (steps 2 (opened (12 / 10) (8 / 10))) true.
Proof.
  assert (Hreg : collapsed (opened (12 / 10) (8 / 10)) = false)
    by (apply opened_not_collapsed; lra).
  rewrite (interrupted_simulation_resumes (ClickReset :: ClickValve :: nil)
             (runEvents (ClickValve :: Frame :: nil) mounted)).
  - rewrite simulating_default. cbn [st]. f_equal.
    apply step_reads_volumes.
    + reflexivity.
    + rewrite step_regular by (reflexivity || exact Hreg). reflexivity.
    + rewrite (stateRef_collapsed _ (step (opened (12 / 10) (8 / 10))))
        by reflexivity.
      apply (default_two_ticks 1); lia.
    + reflexivity.
  - apply runEvents_consistent, mounted_consistent.
  - exact simulating_default_animating.
  - rewrite simulating_default. apply (default_two_ticks 1). lia.
  - reflexivity.
  - change (runEvents (ClickReset :: ClickValve :: nil)
              (runEvents (ClickValve :: Frame :: nil) mounted))
      with (dispatch ClickValve
              (dispatch ClickReset
                 (runEvents (ClickValve :: Frame :: nil) mounted))).
    destruct (dispatch_cells ClickValve
                (dispatch ClickReset
                   (runEvents (ClickValve :: Frame :: nil) mounted)))
      as (_ & _ & -> & _).
    cbn [handle st valveOpen].
    destruct (dispatch_cells ClickReset
                (runEvents (ClickValve :: Frame :: nil) mounted))
      as (_ & _ & -> & _).
    reflexivity.
Defined.

(** ** The frame that detects collapse *)

Lemma overshoot_reachable :
  runEvents (SlideR1 (3 / 10) :: SlideR2 2 :: ClickValve :: Frame :: nil) mounted
  = mkComponent overshoot true.
Proof.
  change (runEvents (SlideR1 (3 / 10) :: SlideR2 2 :: ClickValve :: Frame :: nil)
            mounted)
    with (dispatch Frame
            (runEvents (SlideR1 (3 / 10) :: SlideR2 2 :: ClickValve :: nil)
               mounted)).
  rewrite open_after_sliders by (reflexivity || exact mounted_consistent).
  rewrite dispatch_frame_regular; [reflexivity | reflexivity | reflexivity |].
  apply (opened_not_collapsed (3 / 10) 2); lra.
Qed.

(** When a frame of a running simulation detects collapse, the component
    ends with the valve closed, no frame scheduled and [animating] off; the
    radii stay as displayed, and the effect that follows replaces each
    stored volume by its value clamped below at [0.0001]: a stored volume
    that had gone negative is discarded at that moment. *)
Theorem collapse_frame_resyncs (c : Component) :
  pending c = true -> valveOpen (st c) = true -> animating (st c) = true ->
  collapsed (st c) = true -> inSync (st c) ->
  valveOpen (st (dispatch Frame c)) = false /\
  animating (st (dispatch Frame c)) = false /\
  pending (dispatch Frame c) = false /\
  r1 (st (dispatch Frame c)) = r1 (st c) /\
  r2 (st (dispatch Frame c)) = r2 (st c) /\
  v1 (stateRef (st (dispatch Frame c)))
  = Rmax (1 / 10000) (v1 (stateRef (st c))) /\
  v2 (stateRef (st (dispatch Frame c)))
  = Rmax (1 / 10000) (v2 (stateRef (st c))).
Proof.
  intros Hp Hv Ha Hc [Hs1 Hs2].
  rewrite dispatch_frame_collapse by assumption. simpl.
  repeat split.
  - rewrite Hs1. unfold curR1, safeV1, volumeOfRadius.
    pose proof PI_gt_3.
    rewrite radiusOfVolume_cube by apply safe_pos. field. lra.
  - rewrite Hs2. unfold curR2, safeV2, volumeOfRadius.
    pose proof PI_gt_3.
    rewrite radiusOfVolume_cube by apply safe_pos. field. lra.
Qed.

Lemma collapse_frame_resyncs_witness :
  v1 (stateRef
        (st (dispatch Frame
               (runEvents
                  (SlideR1 (3 / 10) :: SlideR2 2 :: ClickValve :: Frame :: nil)
                  mounted))))
  = Rmax (1 / 10000) (v1 (stateRef overshoot)) /\
  v1 (stateRef overshoot) < 0.
Proof.
  rewrite overshoot_reachable. split.
  - apply (collapse_frame_resyncs (mkComponent overshoot true)).
    + reflexivity.
    + exact overshoot_valve.
    + simpl. rewrite overshoot_eq. reflexivity.
    + exact overshoot_collapsed.
    + apply step_inSync; [reflexivity | apply opened_not_collapsed; lra].
  - rewrite overshoot_eq. simpl. pose proof PI_lt_35.
    unfold volumeOfRadius. lra.
Defined.

(** ** The valve closes by itself *)

Lemma steps_S_inner (n : nat) (s : State) : steps (S n) s = steps n (step s).
Proof.
  induction n as [|n IH]; [reflexivity|].
  change (steps (S (S n)) s) with (step (steps (S n) s)). rewrite IH.
  reflexivity.
Qed.

Lemma frames_regular (n : nat) (s : State) :
  valveOpen s = true ->
  (forall k, (k < n)%nat -> collapsed (steps k s) = false) ->
  runEvents (repeat Frame n) (mkComponent s true)
  = mkComponent (steps n s) true.
Proof.
  revert s. induction n as [|n IH]; intros s Hv Hc; [reflexivity|].
  simpl runEvents.
  rewrite dispatch_frame_regular;
    [| reflexivity | exact Hv | apply (Hc 0%nat); lia].
  cbn [st]. rewrite IH.
  - rewrite steps_S_inner. reflexivity.
  - rewrite step_regular; [reflexivity | exact Hv | apply (Hc 0%nat); lia].
  - intros k Hk. rewrite <- steps_S_inner. apply Hc. lia.
Qed.

Lemma first_collapse (s : State) :
  valveOpen s = true -> curR1 s <> curR2 s ->
  exists n,
    (forall k, (k < n)%nat -> collapsed (steps k s) = false) /\
    collapsed (steps n s) = true.
Proof.
  intros Hv Hne.
  destruct (Rtotal_order (curR1 s) (curR2 s)) as [Hlt | [Heq | Hgt]];
    [| contradiction |].
  - destruct (smaller_side_collapses s Hv Hlt) as (n & Hfirst & Hc & _).
    exists n. split; assumption.
  - assert (Hlt : curR1 (swap s) < curR2 (swap s)) by exact Hgt.
    destruct (smaller_side_collapses (swap s) Hv Hlt) as (n & Hfirst & Hc & _).
    rewrite swap_steps, swap_collapsed in Hc.
    exists n. split; [|exact Hc].
    intros k Hk. rewrite <- swap_collapsed, <- swap_steps. now apply Hfirst.
Qed.

Lemma runEvents_app (l1 l2 : list Event) (c : Component) :
  runEvents (l1 ++ l2) c = runEvents l2 (runEvents l1 c).
Proof.
  revert c. induction l1 as [|e l1 IH]; intros c; [reflexivity|].
  simpl. apply IH.
Qed.

(** From the mounted component, setting the sliders to two different radii
    of at least [0.2] and opening the valve is followed, after finitely many
    frames and without any further input, by a component with the valve
    closed, nothing scheduled, [animating] off and the stored volumes
    synchronised with the radii on display. *)
Theorem valve_closes_by_itself (a b : R) :
  2 / 10 <= a -> 2 / 10 <= b -> a <> b ->
  exists n,
    let c := runEvents
               ((SlideR1 a :: SlideR2 b :: ClickValve :: nil) ++ repeat Frame n)
               mounted in
    valveOpen (st c) = false /\
    animating (st c) = false /\
    pending c = false /\
    volumesSynced (st c).
Proof.
  intros Ha Hb Hab.
  assert (Hne : curR1 (opened a b) <> curR2 (opened a b)).
  { rewrite opened_curR1, opened_curR2 by assumption. exact Hab. }
  destruct (first_collapse (opened a b) eq_refl Hne) as (n & Hfirst & Hc).
  assert (Hn : (0 < n)%nat).
  { destruct n as [|n]; [|lia]. simpl in Hc.
    rewrite opened_not_collapsed in Hc by assumption. discriminate. }
  exists (S n). cbv zeta.
  rewrite runEvents_app.
  rewrite open_after_sliders by (reflexivity || exact mounted_consistent).
  replace (S n) with (n + 1)%nat by lia.
  rewrite repeat_app, runEvents_app.
  rewrite frames_regular by (reflexivity || exact Hfirst).
  simpl runEvents.
  assert (Hvn : valveOpen (steps n (opened a b)) = true).
  { apply steps_valve_open; [reflexivity | exact Hfirst]. }
  assert (Han : animating (steps n (opened a b)) = true).
  { destruct n as [|n]; [lia|]. simpl steps. rewrite step_regular.
    - reflexivity.
    - apply steps_valve_open; [reflexivity|]. intros k Hk. apply Hfirst. lia.
    - apply Hfirst. lia. }
  rewrite dispatch_frame_collapse by (reflexivity || assumption).
  repeat split.
Qed.

Lemma valve_closes_by_itself_witness :
  exists n,
    valveOpen
      (st (runEvents
             ((SlideR1 (3 / 10) :: SlideR2 2 :: ClickValve :: nil)
              ++ repeat Frame n) mounted)) = false.
Proof.
  destruct (valve_closes_by_itself (3 / 10) 2) as (n & H & _); try lra.
  exists n. exact H.
Defined.

(** ** The 3D scene *)

(** When the radii on display are in sync with the stored volumes, a bubble
    is drawn in the warning colour exactly when the next call of [step]
    detects collapse. *)
Theorem pink_bubble_means_collapse (s : State) :
  inSync s ->
  (collapsed s = true <->
   bubbleColor (r1 s) = "#ffaaaa"%string \/
   bubbleColor (r2 s) = "#ffaaaa"%string).
Proof.
  intros [H1 H2]. unfold collapsed, bubbleColor. rewrite H1, H2.
  rewrite orb_true_iff.
  destruct (Rltb (curR1 s) (2 / 10)), (Rltb (curR2 s) (2 / 10));
    split; intros H; auto; destruct H; discriminate || auto.
Qed.

Lemma pink_bubble_means_collapse_witness :
  collapsed overshoot = true <->
  bubbleColor (r1 overshoot) = "#ffaaaa"%string \/
  bubbleColor (r2 overshoot) = "#ffaaaa"%string.
Proof.
  apply (pink_bubble_means_collapse overshoot).
  apply step_inSync; [reflexivity | apply opened_not_collapsed; lra].
Defined.

(** Within a hundredth of equality the particles are hidden although air is
    flowing: for radii in sync that differ by less than [0.01], [flowDir] is
    ['none'] and the flow is not zero. *)
Theorem flowDir_dead_zone (s : State) :
  inSync s -> r1 s <> r2 s -> Rabs (r1 s - r2 s) < 1 / 100 ->
  flowDir s = DirNone /\ flow s <> 0.
Proof.
  intros [H1 H2] Hne Hclose. split.
  - unfold flowDir.
    replace (Rltb (Rabs (r1 s - r2 s)) (1 / 100)) with true; [reflexivity|].
    symmetry. now apply Rltb_true.
  - rewrite H1, H2 in Hne.
    destruct (Rtotal_order (curR1 s) (curR2 s)) as [Hlt | [Heq | Hgt]];
      [| contradiction |].
    + pose proof (flow_pos s Hlt). lra.
    + pose proof (pressure_lt _ _ (curR2_pos s) Hgt) as Hp.
      unfold flow, p1, p2, FLOW_RATE_CONSTANT. unfold pressure in Hp. nra.
Qed.

Lemma flowDir_dead_zone_witness :
  flowDir (opened 1 (1005 / 1000)) = DirNone /\
  flow (opened 1 (1005 / 1000)) <> 0.
Proof.
  apply (flowDir_dead_zone (opened 1 (1005 / 1000))).
  - apply opened_inSync; lra.
  - simpl. lra.
  - simpl. apply Rabs_def1; lra.
Defined.

Lemma flowDir_agrees_witness : 0 < flow (opened (8 / 10) (12 / 10)).
Proof.
  apply (flowDir_agrees (opened (8 / 10) (12 / 10))).
  - apply opened_inSync; lra.
  - unfold flowDir; simpl.
    replace (Rltb (Rabs (8 / 10 - 12 / 10)) (1 / 100)) with false.
    + replace (Rltb (8 / 10) (12 / 10)) with true; [reflexivity|].
      symmetry; apply Rltb_true; lra.
    + symmetry; apply Rltb_false.
      replace (8 / 10 - 12 / 10) with (- (4 / 10)) by field.
      rewrite Rabs_Ropp, Rabs_right; lra.
Defined.

(** The particles never leave the pipe: the ten start positions lie in
    [-2, 2], one frame maps any position to a position in [-2, 2] when the
    particles move and leaves it alone when they do not, a particle moving
    right advances by [0.04] until it would pass [2] and then restarts at
    [-2], and the scale of a particle is always in [0, 0.1]. *)
Theorem particles_stay_in_pipe (direction : Direction) (px : R) (i : nat) :
  direction <> DirNone ->
  -2 <= particleFrame true direction px <= 2 /\
  particleFrame false direction px = px /\
  particleFrame true DirNone px = px /\
  (px + 4 / 100 <= 2 -> -2 <= px + 4 / 100 ->
   particleFrame true DirRight px = px + 4 / 100) /\
  (2 < px + 4 / 100 -> particleFrame true DirRight px = -2) /\
  (px - 4 / 100 < -2 -> px - 4 / 100 <= 2 ->
   particleFrame true DirLeft px = 2) /\
  ((i < 10)%nat -> -2 <= particleStart i <= 2) /\
  (forall t, 0 <= particleScale t i <= 1 / 10).
Proof.
  intros Hd.
  assert (Hwrap : forall x1 : R,
            -2 <= (if Rltb (if Rltb 2 x1 then -2 else x1) (-2) then 2
                   else if Rltb 2 x1 then -2 else x1) <= 2).
  { intros x1. destruct (Rltb 2 x1) eqn:H1.
    - replace (Rltb (-2) (-2)) with false
        by (symmetry; apply Rltb_false; lra). lra.
    - apply Rltb_false in H1. destruct (Rltb x1 (-2)) eqn:H2; [lra|].
      apply Rltb_false in H2. lra. }
  split.
  { destruct direction; [contradiction | apply Hwrap | apply Hwrap]. }
  split; [reflexivity|]. split; [reflexivity|].
  split.
  { intros Hhi Hlo. unfold particleFrame.
    replace (2 * (2 / 100)) with (4 / 100) by field.
    replace (Rltb 2 (px + 4 / 100)) with false
      by (symmetry; apply Rltb_false; lra).
    replace (Rltb (px + 4 / 100) (-2)) with false
      by (symmetry; apply Rltb_false; lra).
    reflexivity. }
  split.
  { intros Hhi. unfold particleFrame.
    replace (2 * (2 / 100)) with (4 / 100) by field.
    replace (Rltb 2 (px + 4 / 100)) with true
      by (symmetry; apply Rltb_true; lra).
    replace (Rltb (-2) (-2)) with false
      by (symmetry; apply Rltb_false; lra).
    reflexivity. }
  split.
  { intros Hlo Hhi. unfold particleFrame.
    replace (px + -2 * (2 / 100)) with (px - 4 / 100) by field.
    replace (Rltb 2 (px - 4 / 100)) with false
      by (symmetry; apply Rltb_false; lra).
    replace (Rltb (px - 4 / 100) (-2)) with true
      by (symmetry; apply Rltb_true; lra).
    reflexivity. }
  split.
  { intros Hi. unfold particleStart.
    assert (H0 : 0 <= INR i) by apply pos_INR.
    assert (H9 : INR i <= 9).
    { replace 9 with (INR 9) by (simpl; lra). apply le_INR. lia. }
    lra. }
  intros t. unfold particleScale.
  pose proof (SIN_bound (t * 5 + INR i)). lra.
Qed.

Lemma particles_stay_in_pipe_witness :
  -2 <= particleFrame true DirRight (199 / 100) <= 2 /\
  particleFrame true DirRight (199 / 100) = -2.
Proof.
  split.
  - apply (particles_stay_in_pipe DirRight (199 / 100) 0). discriminate.
  - apply (particles_stay_in_pipe DirRight (199 / 100) 0); [discriminate | lra].
Defined.

(** ** The view of the optics experiment *)

Import OpticsView.

Lemma bandColor_inj (a b : Band) : bandColor a = bandColor b -> a = b.
Proof. destruct a, b; simpl; intros H; reflexivity || discriminate H. Qed.

Lemma inBand_unique (a b : Band) (t : R) : inBand a t -> inBand b t -> a = b.
Proof.
  unfold inBand. destruct a, b; simpl; intros [H1 H2] [H3 H4];
    reflexivity || (exfalso; lra).
Qed.

(** Two thicknesses get the same colour exactly when, after clamping at
    zero, they lie in the same band: the nine colours are pairwise
    different. *)
Theorem color_determines_band (a b : R) :
  interferenceColor a = interferenceColor b <->
  exists bd, inBand bd (Rmax 0 a) /\ inBand bd (Rmax 0 b).
Proof.
  split.
  - intros Heq. destruct (band_cover a) as [ba Ha].
    destruct (band_cover b) as [bb Hb].
    rewrite (interferenceColor_band a ba Ha) in Heq.
    rewrite (interferenceColor_band b bb Hb) in Heq.
    apply bandColor_inj in Heq. subst bb. exists ba. split; assumption.
  - intros (bd & Ha & Hb).
    rewrite (interferenceColor_band a bd Ha), (interferenceColor_band b bd Hb).
    reflexivity.
Qed.

Lemma color_band (t : R) (b : Band) :
  interferenceColor t = bandColor b -> inBand b (Rmax 0 t).
Proof.
  intros Hc. destruct (band_cover t) as [b' Hb'].
  rewrite (interferenceColor_band t b' Hb') in Hc.
  apply bandColor_inj in Hc. subst b'. exact Hb'.
Qed.

(** A thicker film never gets the colour of an earlier band: if
    [interferenceColor] returns the colour of band [ba] for a thickness and
    the colour of band [bb] for a larger one, then [ba] is not after [bb]
    in the order of the lookup. *)
Theorem color_band_monotone (a b : R) (ba bb : Band) :
  a <= b ->
  interferenceColor a = bandColor ba ->
  interferenceColor b = bandColor bb ->
  (bandIndex ba <= bandIndex bb)%nat.
Proof.
  intros Hab Ha Hb. apply color_band in Ha. apply color_band in Hb.
  assert (Hm : Rmax 0 a <= Rmax 0 b) by (apply Rle_max_compat_l; exact Hab).
  revert Hm Ha Hb.
  generalize (Rmax 0 a) as u, (Rmax 0 b) as w. intros u w Huw.
  unfold inBand. destruct ba, bb; simpl; intros [H1 H2] [H3 H4];
    (lia || (exfalso; lra)).
Qed.

Lemma color_band_monotone_witness :
  (bandIndex Gold <= bandIndex Blue)%nat.
Proof.
  apply (color_band_monotone 200 400 Gold Blue).
  - lra.
  - apply interferenceColor_band. rewrite Rmax_right by lra.
    unfold inBand; simpl; lra.
  - exact interferenceColor_400.
Defined.

Lemma black_iff_below_30 (t : R) :
  t < 30 <-> interferenceColor t = bandColor Black.
Proof.
  split.
  - intros Ht. apply interferenceColor_band. unfold inBand; simpl.
    split; [apply Rmax_l | apply Rmax_lub_lt; lra].
  - intros Hc. destruct (band_cover t) as [b Hb].
    rewrite (interferenceColor_band t b Hb) in Hc.
    apply bandColor_inj in Hc. subst b.
    destruct Hb as [_ Hhi]. simpl in Hhi.
    pose proof (Rmax_r 0 t). lra.
Qed.

(** The "Black Film (Fragile!)" label is shown exactly when the colour is
    the black one, for every thickness, negative ones included. *)
Theorem fragile_label_iff_black (t : R) :
  showsFragile t = true <-> interferenceColor t = bandColor Black.
Proof.
  unfold showsFragile. rewrite Rltb_true. apply black_iff_below_30.
Qed.

(** The text under the slider against the colour: the first text goes with
    black and only with black; the second one ("silvery white or gold")
    goes with the silvery-white or the gold colour; the third one, which
    announces purple, blue, green, yellow and red, is also shown for
    thicknesses from 150 up to 250, where the colour is still gold. *)
Theorem note_against_color (t : R) :
  (note t = NoteBlack <-> interferenceColor t = bandColor Black) /\
  (note t = NoteSilverGold ->
   interferenceColor t = bandColor SilveryWhite \/
   interferenceColor t = bandColor Gold) /\
  (150 <= t < 250 ->
   note t = NoteCycle /\ interferenceColor t = bandColor Gold) /\
  (250 <= t ->
   note t = NoteCycle /\
   interferenceColor t <> bandColor Black /\
   interferenceColor t <> bandColor SilveryWhite /\
   interferenceColor t <> bandColor Gold).
Proof.
  split; [|split; [|split]].
  - rewrite <- black_iff_below_30, <- Rltb_true. unfold note.
    destruct (Rltb t 30); [tauto|].
    destruct (Rltb t 150); split; discriminate.
  - unfold note. destruct (Rltb t 30) eqn:H30; [discriminate|].
    destruct (Rltb t 150) eqn:H150; [|discriminate]. intros _.
    apply Rltb_false in H30. apply Rltb_true in H150.
    destruct (Rlt_le_dec t 120).
    + left. apply interferenceColor_band. rewrite Rmax_right by lra.
      unfold inBand; simpl; lra.
    + right. apply interferenceColor_band. rewrite Rmax_right by lra.
      unfold inBand; simpl; lra.
  - intros Ht. split.
    + unfold note. replace (Rltb t 30) with false
        by (symmetry; apply Rltb_false; lra).
      replace (Rltb t 150) with false
        by (symmetry; apply Rltb_false; lra). reflexivity.
    + apply interferenceColor_band. rewrite Rmax_right by lra.
      unfold inBand; simpl; lra.
  - intros Ht. split.
    + unfold note. replace (Rltb t 30) with false
        by (symmetry; apply Rltb_false; lra).
      replace (Rltb t 150) with false
        by (symmetry; apply Rltb_false; lra). reflexivity.
    + destruct (band_cover t) as [b Hb].
      rewrite (interferenceColor_band t b Hb).
      rewrite Rmax_right in Hb by lra. destruct Hb as [Hlo Hhi].
      repeat split; intros Hc; apply bandColor_inj in Hc; subst b;
        simpl in Hhi; lra.
Qed.

Lemma note_against_color_witness :
  note 200 = NoteCycle /\ interferenceColor 200 = bandColor Gold.
Proof. apply (note_against_color 200). lra. Defined.

Lemma sliderValue_eq (k : nat) : sliderValue k = 10 * INR k.
Proof. unfold sliderValue. rewrite mult_INR. simpl. lra. Qed.

(** Every one of the nine colours can be reached with the slider, whose
    values are the multiples of ten from 0 to 1000; and every slider value
    gives one of the nine colours. *)
Theorem slider_reaches_every_band (bd : Band) :
  (exists k, (k <= 100)%nat /\ interferenceColor (sliderValue k) = bandColor bd) /\
  (forall k, exists b, interferenceColor (sliderValue k) = bandColor b).
Proof.
  split.
  - assert (Hk : forall k b, inBand b (10 * INR k) ->
                 interferenceColor (sliderValue k) = bandColor b).
    { intros k b Hb. apply interferenceColor_band.
      rewrite sliderValue_eq. rewrite Rmax_right; [exact Hb|].
      pose proof (pos_INR k). lra. }
    destruct bd;
      [ exists 0%nat | exists 3%nat | exists 12%nat | exists 25%nat
      | exists 35%nat | exists 45%nat | exists 55%nat | exists 65%nat
      | exists 80%nat ];
      (split; [lia|]); apply Hk; unfold inBand;
      rewrite INR_IZR_INZ; simpl; lra.
  - intros k. destruct (band_cover (sliderValue k)) as [b Hb].
    exists b. now apply interferenceColor_band.
Qed.

(** ** The hero scene *)

(** The wobble of a hero bubble stays within two percent of its nominal
    scale at every time, for every speed and offset; a bubble of positive
    nominal scale keeps a positive scale. *)
Theorem wobble_within_two_percent (scale speed offset elapsed : R) :
  Rabs (Hero.wobble scale speed offset elapsed - scale)
  <= (2 / 100) * Rabs scale /\
  (0 < scale ->
   (98 / 100) * scale <= Hero.wobble scale speed offset elapsed
   <= (102 / 100) * scale /\
   0 < Hero.wobble scale speed offset elapsed).
Proof.
  unfold Hero.wobble.
  pose proof (SIN_bound (elapsed * speed * 2 + offset)) as Hs.
  set (w := sin (elapsed * speed * 2 + offset)) in *.
  split.
  - replace (scale + w * (2 / 100) * scale - scale)
      with ((2 / 100) * (w * scale)) by ring.
    rewrite Rabs_mult, (Rabs_right (2 / 100)) by lra.
    apply Rmult_le_compat_l; [lra|].
    rewrite Rabs_mult.
    rewrite <- (Rmult_1_l (Rabs scale)) at 2.
    apply Rmult_le_compat_r; [apply Rabs_pos|].
    apply Rabs_le. lra.
  - intros Hpos. assert (H1 : -scale <= w * scale <= scale) by nra.
    repeat split; lra.
Qed.

Lemma wobble_within_two_percent_witness :
  0 < Hero.wobble (22 / 10) 1 50 3.
Proof. apply (wobble_within_two_percent (22 / 10) 1 50 3). lra. Defined.

(** ** Flow direction after a run was interrupted by hand *)

Lemma flow_neg (s : State) : curR2 s < curR1 s -> flow s < 0.
Proof.
  intros H. pose proof (pressure_lt _ _ (curR2_pos s) H) as Hp.
  unfold flow, p1, p2, FLOW_RATE_CONSTANT. unfold pressure in Hp. nra.
Qed.

Lemma dispatch_click_open (c : Component) :
  valveOpen (st c) = true ->
  dispatch ClickValve c =
  mkComponent
    (mkState (r1 (st c)) (r2 (st c)) false (animating (st c)) (stateRef (st c)))
    false.
Proof.
  destruct c as [s p]. intros Hv. simpl in Hv.
  unfold dispatch, effects; simpl. rewrite Hv; simpl.
  rewrite depsChanged_same by reflexivity. reflexivity.
Qed.

Lemma dispatch_slide1_busy (c : Component) (a : R) :
  valveOpen (st c) = false -> animating (st c) = true ->
  dispatch (SlideR1 a) c =
  mkComponent (mkState a (r2 (st c)) false true (stateRef (st c))) (pending c).
Proof.
  destruct c as [s p]. simpl. intros Hv Ha.
  unfold dispatch; simpl handle. rewrite Hv, Ha.
  unfold effects. cbn [st pending valveOpen].
  rewrite syncVolumes_animating by reflexivity. rewrite Hv. simpl.
  destruct (depsChanged s _); reflexivity.
Qed.

Lemma dispatch_slide2_busy (c : Component) (a : R) :
  valveOpen (st c) = false -> animating (st c) = true ->
  dispatch (SlideR2 a) c =
  mkComponent (mkState (r1 (st c)) a false true (stateRef (st c))) (pending c).
Proof.
  destruct c as [s p]. simpl. intros Hv Ha.
  unfold dispatch; simpl handle. rewrite Hv, Ha.
  unfold effects. cbn [st pending valveOpen].
  rewrite syncVolumes_animating by reflexivity. rewrite Hv. simpl.
  destruct (depsChanged s _); reflexivity.
Qed.

Lemma default_first_tick :
  step (opened (12 / 10) (8 / 10)) =
  mkState
    (radiusOfVolume (Rmax (1 / 10000) (volumeOfRadius (12 / 10) + 1 / 48)))
    (radiusOfVolume (Rmax (1 / 10000) (volumeOfRadius (8 / 10) - 1 / 48)))
    true true
    (mkVolumes (volumeOfRadius (12 / 10) + 1 / 48)
               (volumeOfRadius (8 / 10) - 1 / 48)).
Proof.
  rewrite step_regular
    by (reflexivity || (apply opened_not_collapsed; lra)).
  rewrite default_flow. simpl.
  replace (volumeOfRadius (12 / 10) - - (1 / 48))
    with (volumeOfRadius (12 / 10) + 1 / 48) by ring.
  replace (volumeOfRadius (8 / 10) + - (1 / 48))
    with (volumeOfRadius (8 / 10) - 1 / 48) by ring.
  reflexivity.
Qed.

(** The interrupted run ends with the slider values on display and the
    volumes of the first tick still stored. *)
Lemma stale_eq :
  stale =
  mkComponent
    (mkState (5 / 10) 1 true true
       (mkVolumes (volumeOfRadius (12 / 10) + 1 / 48)
                  (volumeOfRadius (8 / 10) - 1 / 48)))
    true.
Proof.
  unfold stale, staleEvents.
  change (runEvents
            (ClickValve :: Frame :: ClickValve :: SlideR1 (5 / 10)
             :: SlideR2 1 :: ClickValve :: nil) mounted)
    with (dispatch ClickValve
            (dispatch (SlideR2 1)
               (dispatch (SlideR1 (5 / 10))
                  (dispatch ClickValve
                     (runEvents (ClickValve :: Frame :: nil) mounted))))).
  rewrite simulating_default, default_first_tick.
  match goal with
  | |- context [dispatch ClickValve (mkComponent ?s ?p)] =>
      rewrite (dispatch_click_open (mkComponent s p)) by reflexivity
  end.
  cbn [st r1 r2 animating stateRef].
  match goal with
  | |- context [dispatch (SlideR1 ?a) (mkComponent ?s ?p)] =>
      rewrite (dispatch_slide1_busy (mkComponent s p) a) by reflexivity
  end.
  cbn [st r1 r2 pending stateRef].
  match goal with
  | |- context [dispatch (SlideR2 ?a) (mkComponent ?s ?p)] =>
      rewrite (dispatch_slide2_busy (mkComponent s p) a) by reflexivity
  end.
  cbn [st r1 r2 pending stateRef].
  rewrite dispatch_click_closed by reflexivity. reflexivity.
Qed.

Lemma stale_radii :
  12 / 10 < curR1 (st stale) /\ curR2 (st stale) < 8 / 10.
Proof.
  pose proof PI_gt_3. pose proof floorVolume_bounds.
  rewrite stale_eq. unfold curR1, curR2, safeV1, safeV2; simpl.
  rewrite !safe_id by (unfold volumeOfRadius; lra).
  pose proof (radiusOfVolume_volumeOfRadius (12 / 10)) as H12.
  pose proof (radiusOfVolume_volumeOfRadius (8 / 10)) as H8.
  split.
  - apply Rle_lt_trans with (radiusOfVolume (volumeOfRadius (12 / 10))); [lra|].
    apply radiusOfVolume_lt; unfold volumeOfRadius; lra.
  - apply Rlt_le_trans with (radiusOfVolume (volumeOfRadius (8 / 10))); [|lra].
    apply radiusOfVolume_lt; unfold volumeOfRadius; lra.
Qed.

Lemma stale_not_collapsed : collapsed (st stale) = false.
Proof.
  pose proof PI_gt_3. pose proof floorVolume_bounds.
  rewrite stale_eq. apply collapsed_false_iff; simpl.
  unfold volumeOfRadius. split; lra.
Qed.

(** C2, the code at the failing input: after a run is interrupted with the
    valve button, the sliders are set to [0.5] and [1.0] and the valve is
    opened again, the radii on display satisfy [r1 < r2] and the particles
    point to the right, yet the valve-open, not collapsed tick that follows
    computes a negative flow from the volumes the first run left behind:
    the bubble shown as the smaller one gains volume, the other loses it,
    and the radii on display jump to more than [1.2] and less than
    [0.8]. *)
Theorem flow_direction_stale :
  stale = runEvents staleEvents mounted /\
  valveOpen (st stale) = true /\
  pending stale = true /\
  collapsed (st stale) = false /\
  r1 (st stale) = 5 / 10 /\
  r2 (st stale) = 1 /\
  r1 (st stale) < r2 (st stale) /\
  flowDir (st stale) = DirRight /\
  flow (st stale) < 0 /\
  st (dispatch Frame stale) = step (st stale) /\
  v1 (stateRef (st stale)) < v1 (stateRef (st (dispatch Frame stale))) /\
  v2 (stateRef (st (dispatch Frame stale))) < v2 (stateRef (st stale)) /\
  12 / 10 < r1 (st (dispatch Frame stale)) /\
  r2 (st (dispatch Frame stale)) < 8 / 10.
Proof.
  destruct stale_radii as [HA HB].
  pose proof stale_not_collapsed as Hc.
  assert (Hf : flow (st stale) < 0) by (apply flow_neg; lra).
  assert (Hv : valveOpen (st stale) = true) by (rewrite stale_eq; reflexivity).
  assert (Hp : pending stale = true) by (rewrite stale_eq; reflexivity).
  assert (H1 : r1 (st stale) = 5 / 10) by (rewrite stale_eq; reflexivity).
  assert (H2 : r2 (st stale) = 1) by (rewrite stale_eq; reflexivity).
  split; [reflexivity|]. split; [exact Hv|]. split; [exact Hp|].
  split; [exact Hc|]. split; [exact H1|]. split; [exact H2|].
  split; [rewrite H1, H2; lra|].
  split.
  { unfold flowDir. rewrite H1, H2.
    replace (Rltb (Rabs (5 / 10 - 1)) (1 / 100)) with false.
    - replace (Rltb (5 / 10) 1) with true; [reflexivity|].
      symmetry; apply Rltb_true; lra.
    - symmetry; apply Rltb_false.
      replace (5 / 10 - 1) with (- (5 / 10)) by field.
      rewrite Rabs_Ropp, Rabs_right; lra. }
  split; [exact Hf|].
  rewrite dispatch_frame_regular by assumption. cbn [st].
  split; [reflexivity|].
  rewrite step_regular by assumption. cbn [stateRef v1 v2 r1 r2].
  split; [lra|]. split; [lra|].
  unfold curR1, curR2, safeV1, safeV2 in HA, HB. split.
  - apply Rlt_le_trans with (1 := HA).
    apply radiusOfVolume_le; [apply safe_pos | apply safe_mono; lra].
  - apply Rle_lt_trans with (2 := HB).
    apply radiusOfVolume_le; [apply safe_pos | apply safe_mono; lra].
Qed.
